(** * The 3D polish brush: bristle physics, fluid paint field, fallback painter

    A shallow embedding of the polish-brush subsystem
    (BristleSystem.js, BrushInputHandler.js, BristlePaintApplicator.js,
    FluidSimulator.js, PolishBrush3D.js) and the properties its design
    document states about it.

    JavaScript numbers and GLSL floats are idealised as real numbers: the
    source calls [Math.sqrt], [exp] and [distance], so the arithmetic is
    that of [R].  A [Float32Array] is a list read and written by index,
    and a write rounds the number to the nearest float32 as the typed array
    does.  The three.js objects the code only calls into (meshes, matrices,
    the camera, the renderer) appear through the functions the code uses of
    them. *)

From Stdlib Require Import Reals Lra Lia ZArith List.
From stdpp Require Import base list gmap strings.
From Equations Require Import Equations.

Local Open Scope R_scope.

(** ** Vectors (THREE.Vector2 / THREE.Vector3) *)

Module Vec.

Record Vec2 := mkVec2 { ux : R; uy : R }.
Record Vec3 := mkVec3 { vx : R; vy : R; vz : R }.
Record Vec4 := mkVec4 { cr : R; cg : R; cb : R; ca : R }.

Definition add (a b : Vec3) : Vec3 :=
  mkVec3 (vx a + vx b) (vy a + vy b) (vz a + vz b).

Definition sub (a b : Vec3) : Vec3 :=
  mkVec3 (vx a - vx b) (vy a - vy b) (vz a - vz b).

Definition multiplyScalar (a : Vec3) (s : R) : Vec3 :=
  mkVec3 (vx a * s) (vy a * s) (vz a * s).

(** [a.addScaledVector(v, s)] *)
Definition addScaledVector (a v : Vec3) (s : R) : Vec3 :=
  mkVec3 (vx a + vx v * s) (vy a + vy v * s) (vz a + vz v * s).

Definition dot (a b : Vec3) : R :=
  vx a * vx b + vy a * vy b + vz a * vz b.

Definition length (a : Vec3) : R :=
  sqrt (vx a * vx a + vy a * vy a + vz a * vz a).

(** [normalize()] is [divideScalar(length() || 1)]. *)
Definition normalize (a : Vec3) : Vec3 :=
  let l := length a in
  multiplyScalar a (1 / (if Req_dec_T l 0 then 1 else l)).

End Vec.

Import Vec.

(** ** Loops and typed arrays *)

(** [for (k = lo; k < hi; k++) body] over a state [S]. *)
Definition forLoop {S : Type} (lo hi : nat) (body : nat -> S -> S) (s : S) : S :=
  fold_left (fun acc k => body k acc) (seq lo (hi - lo)) s.

(** [for (k = lo; k <= hi; k++) body] with integer bounds. *)
Definition forLoopZ {S : Type} (lo hi : Z) (body : Z -> S -> S) (s : S) : S :=
  fold_left (fun acc k => body (lo + Z.of_nat k)%Z acc)
            (seq 0 (Z.to_nat (hi - lo + 1))) s.

Lemma forLoop_ind {S : Type} (P : S -> Prop) (lo hi : nat)
    (body : nat -> S -> S) (s : S) :
  (forall k s', P s' -> P (body k s')) -> P s -> P (forLoop lo hi body s).
Proof.
  intros Hbody. unfold forLoop. generalize (seq lo (hi - lo)). intros l.
  revert s. induction l as [|k l IH]; intros s Hs; simpl; auto.
Qed.

Lemma forLoopZ_ind {S : Type} (P : S -> Prop) (lo hi : Z)
    (body : Z -> S -> S) (s : S) :
  (forall k s', P s' -> P (body k s')) -> P s -> P (forLoopZ lo hi body s).
Proof.
  intros Hbody. unfold forLoopZ. generalize (seq 0 (Z.to_nat (hi - lo + 1))).
  intros l. revert s. induction l as [|k l IH]; intros s Hs; simpl; auto.
Qed.

(** Round to the nearest integer, ties to the even one. *)
Definition roundHalfEven (q : R) : Z :=
  let f := Zfloor q in
  if Rlt_dec (q - IZR f) (1 / 2) then f
  else if Rlt_dec (1 / 2) (q - IZR f) then (f + 1)%Z
  else if Z.even f then f else (f + 1)%Z.

(** The binary exponent of a float32 near [x]: that of [x], or -126 for
    the subnormal numbers. *)
Definition float32Exponent (x : R) : Z :=
  Z.max (Zfloor (ln (Rabs x) / ln 2)) (-126).

(** [Math.fround]: the float32 nearest to a number (24 significant bits,
    ties to even, gradual underflow).  The exponent has no upper limit
    here: the numbers stored are lengths of a few millimetres. *)
Definition fround (x : R) : R :=
  if Req_dec_T x 0 then 0
  else
    let ulp := powerRZ 2 (float32Exponent x - 23) in
    IZR (roundHalfEven (x / ulp)) * ulp.

(** A [Float32Array]: reads inside the array give the stored number, a
    write stores the float32 nearest to the number written, and a write
    past the end is dropped (typed arrays do not grow).  Every index the
    code computes lies inside the array it was allocated for. *)
Definition rd (a : list R) (i : nat) : R := default 0 (a !! i).
Definition wr (a : list R) (i : nat) (v : R) : list R := <[i := fround v]> a.

(** ** BristleSystem.js *)

Module Bristle.

(** *** PHYSICS_CONFIG and BRUSH_CONFIG *)

Definition defaultBristleCount : nat := 128.
Definition bristleLength : R := 0.0125.
Definition jointsPerBristle : nat := 4.
Definition segmentsPerBristle : nat := jointsPerBristle - 1.
Definition baseDamping : R := 0.92.
Definition gravity : R := -0.02.
Definition friction : R := 0.4.
Definition edgeFriction : R := 0.6.
Definition constraintIterations : nat := 4.
Definition collisionPushback : R := 0.0008.
Definition physicsTimestep : R := 1 / 120.

Definition headWidth : R := 0.0075.
Definition headDepth : R := 0.002.
Definition fanAngle : R := PI / 16.
Definition tipCurveRadius : R := 0.004.
Definition rowCount : nat := 6.
Definition colCount : nat := 22.
Definition centerStiffness : R := 0.22.
Definition edgeStiffness : R := 0.08.

(** The per-call cap of [updatePhysics] on the time it accumulates. *)
Definition maxAccumulatedDt : R := 0.1.

(** *** What the code uses of three.js *)

(** One entry of [raycaster.intersectObject(...)]. *)
Record Hit := mkHit {
  distance : R;
  point : Vec3;
  faceNormal : Vec3;
  hitUV : option Vec2
}.

(** The nail mesh: how a ray (origin, direction, far limit; [None] is
    the raycaster's default, no limit) intersects it, nearest hit first;
    its geometry's bounding box; the inverse of its world matrix. *)
Record Mesh := mkMesh {
  intersectObject : Vec3 -> Vec3 -> option R -> list Hit;
  boundingBox : option (Vec3 * Vec3);
  meshWorldToLocal : Vec3 -> Vec3
}.

(** [group.matrixWorld]: the matrix applied to a point, its inverse applied
    to a point, and the inverse used by [transformDirection]. *)
Record Matrix4 := mkMatrix4 {
  applyMatrix4 : Vec3 -> Vec3;
  applyInverse : Vec3 -> Vec3;
  transformDirectionInverse : Vec3 -> Vec3
}.

Record Contact := mkContact {
  position : Vec3;
  uv : Vec2;
  normal : Vec3;
  contactPressure : R;
  bristleIndex : nat
}.

(** What [setMatrixAt] stores for one segment: the composed position,
    the unit direction the quaternion turns (0,0,1) into, and the scale. *)
Record Instance := mkInstance {
  instPosition : Vec3;
  instDirection : Vec3;
  instScale : Vec3
}.

(** *** The state of a BristleSystem *)

Record State := mkState {
  bristleCount : nat;
  jointPositions : list R;
  prevJointPositions : list R;
  restDirections : list R;
  bristleStiffness : list R;
  bristleDamping : list R;
  bristleFriction : list R;
  segmentLength : R;
  physicsAccumulator : R;
  brushPosition : Vec3;
  brushNormal : Vec3;
  pressure : R;
  isContacting : bool;
  contactPoints : list Contact;
  color : string;
  groupPosition : Vec3;
  groupRotation : Vec3;
  groupVisible : bool;
  matrixWorld : Matrix4;
  instanceMatrices : list (option Instance)
}.

Definition set_jointPositions (v : list R) (s : State) : State :=
  mkState (bristleCount s) v (prevJointPositions s) (restDirections s)
    (bristleStiffness s) (bristleDamping s) (bristleFriction s)
    (segmentLength s) (physicsAccumulator s) (brushPosition s) (brushNormal s)
    (pressure s) (isContacting s) (contactPoints s) (color s)
    (groupPosition s) (groupRotation s) (groupVisible s) (matrixWorld s)
    (instanceMatrices s).

Definition set_prevJointPositions (v : list R) (s : State) : State :=
  mkState (bristleCount s) (jointPositions s) v (restDirections s)
    (bristleStiffness s) (bristleDamping s) (bristleFriction s)
    (segmentLength s) (physicsAccumulator s) (brushPosition s) (brushNormal s)
    (pressure s) (isContacting s) (contactPoints s) (color s)
    (groupPosition s) (groupRotation s) (groupVisible s) (matrixWorld s)
    (instanceMatrices s).

Definition set_restDirections (v : list R) (s : State) : State :=
  mkState (bristleCount s) (jointPositions s) (prevJointPositions s) v
    (bristleStiffness s) (bristleDamping s) (bristleFriction s)
    (segmentLength s) (physicsAccumulator s) (brushPosition s) (brushNormal s)
    (pressure s) (isContacting s) (contactPoints s) (color s)
    (groupPosition s) (groupRotation s) (groupVisible s) (matrixWorld s)
    (instanceMatrices s).

Definition set_bristleParams (stiff damp fric : list R) (s : State) : State :=
  mkState (bristleCount s) (jointPositions s) (prevJointPositions s)
    (restDirections s) stiff damp fric
    (segmentLength s) (physicsAccumulator s) (brushPosition s) (brushNormal s)
    (pressure s) (isContacting s) (contactPoints s) (color s)
    (groupPosition s) (groupRotation s) (groupVisible s) (matrixWorld s)
    (instanceMatrices s).

Definition set_physicsAccumulator (v : R) (s : State) : State :=
  mkState (bristleCount s) (jointPositions s) (prevJointPositions s)
    (restDirections s) (bristleStiffness s) (bristleDamping s)
    (bristleFriction s) (segmentLength s) v (brushPosition s) (brushNormal s)
    (pressure s) (isContacting s) (contactPoints s) (color s)
    (groupPosition s) (groupRotation s) (groupVisible s) (matrixWorld s)
    (instanceMatrices s).

Definition set_brushTransform (p n rot : Vec3) (s : State) : State :=
  mkState (bristleCount s) (jointPositions s) (prevJointPositions s)
    (restDirections s) (bristleStiffness s) (bristleDamping s)
    (bristleFriction s) (segmentLength s) (physicsAccumulator s) p n
    (pressure s) (isContacting s) (contactPoints s) (color s)
    p rot (groupVisible s) (matrixWorld s) (instanceMatrices s).

Definition set_pressure (v : R) (s : State) : State :=
  mkState (bristleCount s) (jointPositions s) (prevJointPositions s)
    (restDirections s) (bristleStiffness s) (bristleDamping s)
    (bristleFriction s) (segmentLength s) (physicsAccumulator s)
    (brushPosition s) (brushNormal s) v (isContacting s) (contactPoints s)
    (color s) (groupPosition s) (groupRotation s) (groupVisible s)
    (matrixWorld s) (instanceMatrices s).

Definition set_isContacting (v : bool) (s : State) : State :=
  mkState (bristleCount s) (jointPositions s) (prevJointPositions s)
    (restDirections s) (bristleStiffness s) (bristleDamping s)
    (bristleFriction s) (segmentLength s) (physicsAccumulator s)
    (brushPosition s) (brushNormal s) (pressure s) v (contactPoints s)
    (color s) (groupPosition s) (groupRotation s) (groupVisible s)
    (matrixWorld s) (instanceMatrices s).

Definition set_contactPoints (v : list Contact) (s : State) : State :=
  mkState (bristleCount s) (jointPositions s) (prevJointPositions s)
    (restDirections s) (bristleStiffness s) (bristleDamping s)
    (bristleFriction s) (segmentLength s) (physicsAccumulator s)
    (brushPosition s) (brushNormal s) (pressure s) (isContacting s) v
    (color s) (groupPosition s) (groupRotation s) (groupVisible s)
    (matrixWorld s) (instanceMatrices s).

Definition set_color (v : string) (s : State) : State :=
  mkState (bristleCount s) (jointPositions s) (prevJointPositions s)
    (restDirections s) (bristleStiffness s) (bristleDamping s)
    (bristleFriction s) (segmentLength s) (physicsAccumulator s)
    (brushPosition s) (brushNormal s) (pressure s) (isContacting s)
    (contactPoints s) v (groupPosition s) (groupRotation s) (groupVisible s)
    (matrixWorld s) (instanceMatrices s).

Definition set_groupVisible (v : bool) (s : State) : State :=
  mkState (bristleCount s) (jointPositions s) (prevJointPositions s)
    (restDirections s) (bristleStiffness s) (bristleDamping s)
    (bristleFriction s) (segmentLength s) (physicsAccumulator s)
    (brushPosition s) (brushNormal s) (pressure s) (isContacting s)
    (contactPoints s) (color s) (groupPosition s) (groupRotation s) v
    (matrixWorld s) (instanceMatrices s).

Definition set_matrixWorld (v : Matrix4) (s : State) : State :=
  mkState (bristleCount s) (jointPositions s) (prevJointPositions s)
    (restDirections s) (bristleStiffness s) (bristleDamping s)
    (bristleFriction s) (segmentLength s) (physicsAccumulator s)
    (brushPosition s) (brushNormal s) (pressure s) (isContacting s)
    (contactPoints s) (color s) (groupPosition s) (groupRotation s)
    (groupVisible s) v (instanceMatrices s).

Definition set_instanceMatrices (v : list (option Instance)) (s : State) : State :=
  mkState (bristleCount s) (jointPositions s) (prevJointPositions s)
    (restDirections s) (bristleStiffness s) (bristleDamping s)
    (bristleFriction s) (segmentLength s) (physicsAccumulator s)
    (brushPosition s) (brushNormal s) (pressure s) (isContacting s)
    (contactPoints s) (color s) (groupPosition s) (groupRotation s)
    (groupVisible s) (matrixWorld s) v.

(** Index of coordinate 0 of joint [j] of bristle [i]. *)
Definition jointIndex (i j : nat) : nat := ((i * jointsPerBristle + j) * 3)%nat.

(** Three consecutive writes [a[k] = v.x; a[k+1] = v.y; a[k+2] = v.z]. *)
Definition wr3 (a : list R) (k : nat) (v : Vec3) : list R :=
  wr (wr (wr a k (vx v)) (k + 1) (vy v)) (k + 2) (vz v).

Definition rd3 (a : list R) (k : nat) : Vec3 :=
  mkVec3 (rd a k) (rd a (k + 1)) (rd a (k + 2)).

(** *** stepPhysics *)

(** Verlet integration of joint [j] of bristle [i]. *)
Definition integrateJoint (damping g : R) (i j : nat) (s : State) : State :=
  let jointIdx := jointIndex i j in
  let currX := rd (jointPositions s) jointIdx in
  let currY := rd (jointPositions s) (jointIdx + 1) in
  let currZ := rd (jointPositions s) (jointIdx + 2) in
  let prevX := rd (prevJointPositions s) jointIdx in
  let prevY := rd (prevJointPositions s) (jointIdx + 1) in
  let prevZ := rd (prevJointPositions s) (jointIdx + 2) in
  let velX := (currX - prevX) * damping in
  let velY := (currY - prevY) * damping in
  let velZ := (currZ - prevZ) * damping in
  let velZ := velZ + g in
  let s := set_prevJointPositions
             (wr3 (prevJointPositions s) jointIdx (mkVec3 currX currY currZ)) s in
  set_jointPositions
    (wr3 (jointPositions s) jointIdx
         (mkVec3 (currX + velX) (currY + velY) (currZ + velZ))) s.

(** Angular stiffness: joint [j] is blended toward parent + restDir * segLen. *)
Definition stiffenJoint (stiffness segLen : R) (restDir : Vec3) (i j : nat)
    (s : State) : State :=
  let jointIdx := jointIndex i j in
  let parentIdx := ((i * jointsPerBristle + j - 1) * 3)%nat in
  let parentX := rd (jointPositions s) parentIdx in
  let parentY := rd (jointPositions s) (parentIdx + 1) in
  let parentZ := rd (jointPositions s) (parentIdx + 2) in
  let jx := rd (jointPositions s) jointIdx in
  let jy := rd (jointPositions s) (jointIdx + 1) in
  let jz := rd (jointPositions s) (jointIdx + 2) in
  let restX := parentX + vx restDir * segLen in
  let restY := parentY + vy restDir * segLen in
  let restZ := parentZ + vz restDir * segLen in
  let jx := jx + (restX - jx) * stiffness in
  let jy := jy + (restY - jy) * stiffness in
  let jz := jz + (restZ - jz) * stiffness in
  set_jointPositions (wr3 (jointPositions s) jointIdx (mkVec3 jx jy jz)) s.

(** One segment of one bristle in [satisfyDistanceConstraints]. *)
Definition constrainSegment (segLen : R) (i j : nat) (s : State) : State :=
  let j0Idx := jointIndex i j in
  let j1Idx := jointIndex i (j + 1) in
  let x0 := rd (jointPositions s) j0Idx in
  let y0 := rd (jointPositions s) (j0Idx + 1) in
  let z0 := rd (jointPositions s) (j0Idx + 2) in
  let x1 := rd (jointPositions s) j1Idx in
  let y1 := rd (jointPositions s) (j1Idx + 1) in
  let z1 := rd (jointPositions s) (j1Idx + 2) in
  let dx := x1 - x0 in
  let dy := y1 - y0 in
  let dz := z1 - z0 in
  let currentLen := sqrt (dx * dx + dy * dy + dz * dz) in
  if Rlt_dec 0.00001 currentLen then
    let correction := (segLen - currentLen) / currentLen in
    if Nat.eqb j 0 then
      set_jointPositions
        (wr3 (jointPositions s) j1Idx
             (mkVec3 (x1 + dx * correction) (y1 + dy * correction)
                     (z1 + dz * correction))) s
    else
      let halfCorr := correction * 0.5 in
      let jp := wr3 (jointPositions s) j0Idx
                    (mkVec3 (x0 - dx * halfCorr) (y0 - dy * halfCorr)
                            (z0 - dz * halfCorr)) in
      set_jointPositions
        (wr3 jp j1Idx
             (mkVec3 (x1 + dx * halfCorr) (y1 + dy * halfCorr)
                     (z1 + dz * halfCorr))) s
  else s.

Definition satisfyDistanceConstraints (s : State) : State :=
  let segLen := segmentLength s in
  forLoop 0 (bristleCount s)
    (fun i => forLoop 0 segmentsPerBristle (constrainSegment segLen i)) s.

Definition stepBristle (g segLen : R) (i : nat) (s : State) : State :=
  let stiffness := rd (bristleStiffness s) i in
  let damping := rd (bristleDamping s) i in
  let restDirIdx := (i * 3)%nat in
  let restDir := rd3 (restDirections s) restDirIdx in
  let s := forLoop 1 jointsPerBristle (integrateJoint damping g i) s in
  forLoop 1 jointsPerBristle (stiffenJoint stiffness segLen restDir i) s.

Definition stepPhysics (dt : R) (s : State) : State :=
  let g := gravity * dt * dt in
  let segLen := segmentLength s in
  let s := forLoop 0 (bristleCount s) (stepBristle g segLen) s in
  forLoop 0 constraintIterations (fun _ => satisfyDistanceConstraints) s.

(** [stepPhysics] moves joints only: the accumulator is not its business. *)
Lemma stepPhysics_accumulator (dt : R) (s : State) :
  physicsAccumulator (stepPhysics dt s) = physicsAccumulator s.
Proof.
  unfold stepPhysics.
  apply (forLoop_ind (fun s' => physicsAccumulator s' = physicsAccumulator s)).
  - intros _ s' Hs'. unfold satisfyDistanceConstraints.
    apply (forLoop_ind (fun s'' => physicsAccumulator s'' = physicsAccumulator s));
      [|exact Hs'].
    intros i s1 H1.
    apply (forLoop_ind (fun s'' => physicsAccumulator s'' = physicsAccumulator s));
      [|exact H1].
    intros j s2 H2. unfold constrainSegment.
    destruct (Rlt_dec _ _); [|exact H2]. destruct (Nat.eqb j 0); exact H2.
  - apply (forLoop_ind (fun s' => physicsAccumulator s' = physicsAccumulator s));
      [|reflexivity].
    intros i s1 H1. unfold stepBristle.
    apply (forLoop_ind (fun s'' => physicsAccumulator s'' = physicsAccumulator s)).
    + intros j s2 H2. exact H2.
    + apply (forLoop_ind (fun s'' => physicsAccumulator s'' = physicsAccumulator s));
        [|exact H1].
      intros j s2 H2. exact H2.
Qed.

(** *** updatePhysics: the fixed-timestep accumulator *)

(** Whole fixed steps still owed by an accumulator value. *)
Definition stepsPending (acc : R) : nat :=
  Z.to_nat (Zfloor (acc / physicsTimestep)).

Lemma stepsPending_decrease (acc : R) :
  physicsTimestep <= acc ->
  (stepsPending (acc - physicsTimestep) < stepsPending acc)%nat.
Proof.
  intros Hge. unfold stepsPending.
  replace ((acc - physicsTimestep) / physicsTimestep)
    with (acc / physicsTimestep + IZR (-1))
    by (unfold physicsTimestep; simpl; lra).
  rewrite Zfloor_addz.
  assert (1 <= Zfloor (acc / physicsTimestep))%Z.
  { apply Zfloor_lub. unfold physicsTimestep in *. simpl. lra. }
  lia.
Qed.

(** The body of the loop: [stepPhysics(fixedDt); acc -= fixedDt]. *)
Definition fixedStep (s : State) : State :=
  let s1 := stepPhysics physicsTimestep s in
  set_physicsAccumulator (physicsAccumulator s1 - physicsTimestep) s1.

Lemma fixedStep_accumulator (s : State) :
  physicsAccumulator (fixedStep s) = physicsAccumulator s - physicsTimestep.
Proof.
  unfold fixedStep. cbv zeta.
  transitivity (physicsAccumulator (stepPhysics physicsTimestep s) - physicsTimestep);
    [reflexivity|].
  now rewrite stepPhysics_accumulator.
Qed.

Lemma fixedStep_pending (s : State) :
  physicsTimestep <= physicsAccumulator s ->
  (stepsPending (physicsAccumulator (fixedStep s))
     < stepsPending (physicsAccumulator s))%nat.
Proof.
  intros Hge. rewrite fixedStep_accumulator. now apply stepsPending_decrease.
Qed.

(** [while (acc >= fixedDt) { stepPhysics(fixedDt); acc -= fixedDt; }]
    The second component counts the iterations. *)
Equations physicsLoop (s : State) : State * nat
    by wf (stepsPending (physicsAccumulator s)) lt :=
  physicsLoop s with Rle_dec physicsTimestep (physicsAccumulator s) => {
    | left _ => (fun r => (fst r, Datatypes.S (snd r))) (physicsLoop (fixedStep s));
    | right _ => (s, 0%nat) }.
Next Obligation. now apply fixedStep_pending. Qed.

Definition updatePhysicsCounting (deltaTime : R) (s : State) : State * nat :=
  let s := set_physicsAccumulator
             (physicsAccumulator s + Rmin deltaTime maxAccumulatedDt) s in
  physicsLoop s.

Definition updatePhysics (deltaTime : R) (s : State) : State :=
  fst (updatePhysicsCounting deltaTime s).

(** *** handleCollision *)

Definition estimateUVFromHit (hit : Hit) (nailMesh : Mesh) : option Vec2 :=
  match boundingBox nailMesh with
  | None => None
  | Some (bmin, bmax) =>
      let localPoint := meshWorldToLocal nailMesh (point hit) in
      let size := sub bmax bmin in
      let sizeX := if Req_dec_T (vx size) 0 then 1 else vx size in
      let sizeY := if Req_dec_T (vy size) 0 then 1 else vy size in
      let u := (vx localPoint - vx bmin) / sizeX in
      let v := (vy localPoint - vy bmin) / sizeY in
      if Rle_dec 0 u then
        if Rle_dec u 1 then
          if Rle_dec 0 v then
            if Rle_dec v 1 then Some (mkVec2 u v) else None
          else None
        else None
      else None
  end.

(** The body of the loop over bristles, once a hit closer than
    [bristleLength * 1.15] was found. *)
Definition resolveHit (nailMesh : Mesh) (i : nat) (hit : Hit) (s : State) : State :=
  let pushback := collisionPushback in
  let worldMatrix := matrixWorld s in
  let fric := rd (bristleFriction s) i in
  let tipIdx := ((i * jointsPerBristle + jointsPerBristle - 1) * 3)%nat in
  let penetrationDepth := bristleLength - distance hit in
  let segLen := segmentLength s in
  let hitPoint := addScaledVector (point hit) (faceNormal hit) pushback in
  let hitPoint := applyInverse worldMatrix hitPoint in
  let prevTip := rd3 (prevJointPositions s) tipIdx in
  let velX := rd (jointPositions s) tipIdx - vx prevTip in
  let velY := rd (jointPositions s) (tipIdx + 1) - vy prevTip in
  let velZ := rd (jointPositions s) (tipIdx + 2) - vz prevTip in
  let n := transformDirectionInverse worldMatrix (faceNormal hit) in
  let normalVelMag := velX * vx n + velY * vy n + velZ * vz n in
  let tangentVelX := velX - normalVelMag * vx n in
  let tangentVelY := velY - normalVelMag * vy n in
  let tangentVelZ := velZ - normalVelMag * vz n in
  let frictionFactor := 1 - fric in
  let s := set_jointPositions
             (wr3 (jointPositions s) tipIdx
                  (mkVec3 (vx hitPoint + tangentVelX * frictionFactor)
                          (vy hitPoint + tangentVelY * frictionFactor)
                          (vz hitPoint + tangentVelZ * frictionFactor))) s in
  let joint2Idx := ((i * jointsPerBristle + 2) * 3)%nat in
  let s :=
    if Rlt_dec segLen penetrationDepth then
      let j2 := applyMatrix4 worldMatrix (rd3 (jointPositions s) joint2Idx) in
      let j2ToHit := sub j2 (point hit) in
      let j2Depth := - dot j2ToHit (faceNormal hit) in
      if Rlt_dec 0 j2Depth then
        let j2 := addScaledVector j2 (faceNormal hit) (j2Depth + pushback * 0.5) in
        let j2 := applyInverse worldMatrix j2 in
        set_jointPositions (wr3 (jointPositions s) joint2Idx j2) s
      else s
    else s in
  let p := Rmin 1 (penetrationDepth / (bristleLength * 0.5)) in
  let uvOpt := match hitUV hit with
               | Some u => Some u
               | None => estimateUVFromHit hit nailMesh
               end in
  match uvOpt with
  | Some u =>
      set_contactPoints
        (contactPoints s ++
           [mkContact (point hit) u (faceNormal hit) (Rmax 0.15 p) i]) s
  | None => s
  end.

Definition collideBristle (nailMesh : Mesh) (i : nat) (s : State) : State :=
  let worldMatrix := matrixWorld s in
  let baseIdx := ((i * jointsPerBristle) * 3)%nat in
  let tipIdx := ((i * jointsPerBristle + jointsPerBristle - 1) * 3)%nat in
  let base := applyMatrix4 worldMatrix (rd3 (jointPositions s) baseIdx) in
  let tip := applyMatrix4 worldMatrix (rd3 (jointPositions s) tipIdx) in
  let dir := normalize (sub tip base) in
  match intersectObject nailMesh base dir (Some (bristleLength * 1.3)) with
  | hit :: _ =>
      if Rlt_dec (distance hit) (bristleLength * 1.15)
      then resolveHit nailMesh i hit s
      else s
  | [] => s
  end.

(** Returns the new state; the contacts returned to the caller are its
    [contactPoints] (the method returns [this.contactPoints]). *)
Definition handleCollision (nailMesh : option Mesh) (s : State) : State :=
  let s := set_contactPoints [] s in
  match nailMesh with
  | None => s
  | Some mesh =>
      if isContacting s
      then forLoop 0 (bristleCount s) (collideBristle mesh) s
      else s
  end.

(** *** applySplay *)

Definition splayJoint (normalizedX normalizedY p : R) (i j : nat) (s : State) : State :=
  let jointIdx := jointIndex i j in
  let t := INR j / INR segmentsPerBristle in
  let splayScale := t * t in
  let splayForceX := normalizedX * p * 0.0008 * splayScale in
  let splayForceY := normalizedY * p * 0.0004 * splayScale in
  let compressZ := p * 0.0003 * splayScale in
  let jp := jointPositions s in
  set_jointPositions
    (wr3 jp jointIdx
         (mkVec3 (rd jp jointIdx + splayForceX)
                 (rd jp (jointIdx + 1) + splayForceY)
                 (rd jp (jointIdx + 2) - compressZ))) s.

Definition splayBristle (p : R) (i : nat) (s : State) : State :=
  let baseIdx := ((i * jointsPerBristle) * 3)%nat in
  let baseX := rd (jointPositions s) baseIdx in
  let baseY := rd (jointPositions s) (baseIdx + 1) in
  let normalizedX := baseX / (headWidth / 2) in
  let normalizedY := baseY / (headDepth / 2) in
  forLoop 1 jointsPerBristle (splayJoint normalizedX normalizedY p i) s.

Definition applySplay (p : R) (s : State) : State :=
  if Rle_dec p 0 then s
  else forLoop 0 (bristleCount s) (splayBristle p) s.

(** *** updateInstanceMatrices (rendering only) *)

Definition updateSegmentInstance (i sg : nat) (s : State) : State :=
  let segLen := segmentLength s in
  let instanceIdx := (i * segmentsPerBristle + sg)%nat in
  let j0 := rd3 (jointPositions s) (jointIndex i sg) in
  let j1 := rd3 (jointPositions s) (jointIndex i (sg + 1)) in
  let d := sub j1 j0 in
  let currentLength := length d in
  if Rlt_dec 0.00001 currentLength then
    let lengthScale := currentLength / segLen in
    let taperScale := 1.0 - (INR sg * 0.25) in
    set_instanceMatrices
      (<[instanceIdx :=
           Some (mkInstance j0 (normalize d)
                   (mkVec3 taperScale taperScale lengthScale))]>
         (instanceMatrices s)) s
  else s.

Definition updateInstanceMatrices (s : State) : State :=
  forLoop 0 (bristleCount s)
    (fun i => forLoop 0 segmentsPerBristle (updateSegmentInstance i)) s.

(** *** setBrushTransform, setColor, setVisible *)

Definition setBrushTransform (pos nrm : Vec3) (s : State) : State :=
  set_brushTransform pos nrm (mkVec3 0 0 (- PI / 3)) s.

Definition setColor (c : string) (s : State) : State := set_color c s.

Definition setVisible (v : bool) (s : State) : State := set_groupVisible v s.

(** *** update *)

(** [update(deltaTime, nailMesh, raycaster)]: the new state, the contacts
    it returns, and the number of fixed steps it ran.  The shared raycaster
    is only a carrier for the ray handed to [intersectObject]. *)
Definition updateCounting (deltaTime : R) (nailMesh : option Mesh) (s : State)
    : State * list Contact * nat :=
  let s := if Rlt_dec 0 (pressure s) then applySplay (pressure s) s else s in
  let '(s, steps) := updatePhysicsCounting deltaTime s in
  let s := handleCollision nailMesh s in
  let contacts := contactPoints s in
  let s := updateInstanceMatrices s in
  (s, contacts, steps).

Definition update (deltaTime : R) (nailMesh : option Mesh) (s : State)
    : State * list Contact :=
  fst (updateCounting deltaTime nailMesh s).

(** *** The constructor and initializePhysics *)

(** [Math.sign]. *)
Definition sign (x : R) : R :=
  if Rlt_dec 0 x then 1 else if Rlt_dec x 0 then -1 else 0.

(** One bristle of the row/column layout.  [rand] is the stream of
    [Math.random()] results; bristle [b] draws numbers [2b] and [2b+1]. *)
Definition initBristle (rand : nat -> R) (row col : nat) (acc : State * nat)
    : State * nat :=
  let '(s, b) := acc in
  if (b <? bristleCount s)%nat then
    let tx := INR col / INR (colCount - 1) - 0.5 in
    let ty := INR row / INR (rowCount - 1) - 0.5 in
    let baseX := tx * headWidth in
    let baseY := ty * headDepth in
    let baseZ := 0 in
    let curveOffset := sqrt (Rmax 0 (1 - tx * tx * 4)) * tipCurveRadius in
    let baseZ := baseZ + curveOffset in
    let baseX := baseX + (rand (2 * b)%nat - 0.5) * 0.000125 in
    let baseY := baseY + (rand (2 * b + 1)%nat - 0.5) * 0.00006 in
    let fanAmount := Rabs tx * fanAngle in
    let dirX := sin fanAmount * sign (if Req_dec_T tx 0 then 1 else tx) in
    let dirY := 0 in
    let dirZ := cos fanAmount in
    let len := sqrt (dirX * dirX + dirY * dirY + dirZ * dirZ) in
    let restDirIdx := (b * 3)%nat in
    let s := set_restDirections
               (wr3 (restDirections s) restDirIdx
                    (mkVec3 (dirX / len) (dirY / len) (dirZ / len))) s in
    let s :=
      forLoop 0 jointsPerBristle
        (fun j s =>
           let jointIdx := jointIndex b j in
           let jx := baseX + rd (restDirections s) restDirIdx
                             * segmentLength s * INR j in
           let jy := baseY + rd (restDirections s) (restDirIdx + 1)
                             * segmentLength s * INR j in
           let jz := baseZ + rd (restDirections s) (restDirIdx + 2)
                             * segmentLength s * INR j in
           let s := set_jointPositions
                      (wr3 (jointPositions s) jointIdx (mkVec3 jx jy jz)) s in
           set_prevJointPositions
             (wr3 (prevJointPositions s) jointIdx (mkVec3 jx jy jz)) s) s in
    let edgeness := Rabs tx * 2 in
    let s := set_bristleParams
               (wr (bristleStiffness s) b
                   (centerStiffness + (edgeStiffness - centerStiffness) * edgeness))
               (wr (bristleDamping s) b (baseDamping - edgeness * 0.04))
               (wr (bristleFriction s) b
                   (friction + (edgeFriction - friction) * edgeness)) s in
    (s, Datatypes.S b)
  else (s, b).

Definition initializePhysics (rand : nat -> R) (s : State) : State :=
  let '(s, _) :=
    forLoop 0 rowCount
      (fun row => forLoop 0 colCount (fun col => initBristle rand row col))
      (s, 0%nat) in
  updateInstanceMatrices s.

Definition identityMatrix : Matrix4 := mkMatrix4 (fun v => v) (fun v => v) (fun v => v).

(** [new BristleSystem(bristleCount)] *)
Definition new (n : nat) (rand : nat -> R) : State :=
  let totalJoints := (n * jointsPerBristle)%nat in
  initializePhysics rand
    (mkState n
       (replicate (totalJoints * 3) 0) (replicate (totalJoints * 3) 0)
       (replicate (n * 3) 0)
       (replicate n 0) (replicate n 0) (replicate n 0)
       (bristleLength / INR segmentsPerBristle)
       0
       (mkVec3 0 0 0) (mkVec3 0 0 1)
       0 false [] "#ff2a6d"
       (mkVec3 0 0 0) (mkVec3 0 0 0) true identityMatrix
       (replicate (n * segmentsPerBristle) None)).

End Bristle.

(** ** BrushInputHandler.js *)

Module Input.

Import Bristle.

(** *** BRUSH_CONFIG *)

Definition defaultDistance : R := 0.6.
Definition hoverHeight : R := 0.02.
Definition pressHeight : R := 0.005.
Definition tipOffset : Vec3 := mkVec3 0.005 (-0.005) 0.

(** The camera as the handler uses it: its position, its quaternion
    applied to a vector, and the ray [setFromCamera(mouse, camera)] builds
    (the direction of [raycaster.ray]). *)
Record Camera := mkCamera {
  cameraPosition : Vec3;
  applyQuaternion : Vec3 -> Vec3;
  rayOrigin : Vec2 -> Vec3;
  rayDirection : Vec2 -> Vec3
}.

(** A pointer event with the element's [getBoundingClientRect()]. *)
Record PointerEvent := mkPointerEvent {
  clientX : R;
  clientY : R;
  eventPressure : R;
  rectLeft : R;
  rectTop : R;
  rectWidth : R;
  rectHeight : R
}.

(** The object [getBrushTransform] returns. *)
Record Transform := mkTransform {
  position : Vec3;
  normal : Vec3;
  surfacePoint : Vec3;
  uv : option Vec2;
  pressure : R;
  isValid : bool
}.

Record State := mkState {
  camera : Camera;
  attached : bool;
  mouse : Vec2;
  isPointerDown : bool;
  pointerPosition : Vec2;
  lastValidHit : option Transform;
  simulatedPressure : R;
  pressureVelocity : R
}.

(** [new BrushInputHandler(camera, domElement)] *)
Definition new (cam : Camera) : State :=
  mkState cam false (mkVec2 0 0) false (mkVec2 0 0) None 0 0.

Definition attach (s : State) : State :=
  mkState (camera s) true (mouse s) (isPointerDown s) (pointerPosition s)
    (lastValidHit s) (simulatedPressure s) (pressureVelocity s).

Definition detach (s : State) : State :=
  mkState (camera s) false (mouse s) (isPointerDown s) (pointerPosition s)
    (lastValidHit s) (simulatedPressure s) (pressureVelocity s).

Definition updateMousePosition (e : PointerEvent) (s : State) : State :=
  mkState (camera s) (attached s)
    (mkVec2 (((clientX e - rectLeft e) / rectWidth e) * 2 - 1)
            (- ((clientY e - rectTop e) / rectHeight e) * 2 + 1))
    (isPointerDown s) (mkVec2 (clientX e) (clientY e))
    (lastValidHit s) (simulatedPressure s) (pressureVelocity s).

Definition set_pointer (down : bool) (p : R) (s : State) : State :=
  mkState (camera s) (attached s) (mouse s) down (pointerPosition s)
    (lastValidHit s) p (pressureVelocity s).

Definition set_lastValidHit (t : Transform) (s : State) : State :=
  mkState (camera s) (attached s) (mouse s) (isPointerDown s)
    (pointerPosition s) (Some t) (simulatedPressure s) (pressureVelocity s).

Definition onPointerDown (e : PointerEvent) (s : State) : State :=
  let s := set_pointer true (simulatedPressure s) s in
  let s := updateMousePosition e s in
  set_pointer (isPointerDown s) 0.35 s.

Definition onPointerMove (e : PointerEvent) (s : State) : State :=
  let s := updateMousePosition e s in
  if Req_dec_T (eventPressure e) 0 then s
  else if Rlt_dec 0 (eventPressure e) then
    if Rlt_dec (eventPressure e) 1
    then set_pointer (isPointerDown s) (eventPressure e) s
    else s
  else s.

Definition onPointerUp (s : State) : State := set_pointer false 0 s.

Definition updatePressure (deltaTime : R) (s : State) : State :=
  if isPointerDown s
  then set_pointer (isPointerDown s) (Rmin 1 (simulatedPressure s + deltaTime * 10)) s
  else set_pointer (isPointerDown s) (Rmax 0 (simulatedPressure s - deltaTime * 8)) s.

(** The pose returned when the pointer ray hits the nail. *)
Definition hitTransform (hit : Hit) (s : State) : Transform :=
  let height :=
    if isPointerDown s
    then pressHeight + (hoverHeight - pressHeight) * (1 - simulatedPressure s)
    else hoverHeight in
  let toCamera := normalize (sub (cameraPosition (camera s)) (point hit)) in
  let pos := addScaledVector (point hit) toCamera height in
  let pos := add pos (applyQuaternion (camera s) tipOffset) in
  mkTransform pos toCamera (point hit) (hitUV hit)
    (if isPointerDown s then simulatedPressure s else 0) true.

(** The pose returned when it does not. *)
Definition missTransform (s : State) : Transform :=
  let screenPosition := cameraPosition (camera s) in
  let screenPosition :=
    addScaledVector screenPosition (rayDirection (camera s) (mouse s))
      defaultDistance in
  let screenPosition := add screenPosition (applyQuaternion (camera s) tipOffset) in
  mkTransform screenPosition (mkVec3 0 1 0) screenPosition None 0 false.

(** The handler's own raycaster keeps its default far limit. *)
Definition pointerIntersections (nailMesh : option Mesh) (s : State) : list Hit :=
  match nailMesh with
  | Some mesh =>
      intersectObject mesh (rayOrigin (camera s) (mouse s))
        (rayDirection (camera s) (mouse s)) None
  | None => []
  end.

Definition getBrushTransform (nailMesh : option Mesh) (s : State)
    : State * Transform :=
  match pointerIntersections nailMesh s with
  | hit :: _ =>
      let t := hitTransform hit s in
      (set_lastValidHit t s, t)
  | [] => (s, missTransform s)
  end.

Definition isPainting (s : State) : bool := isPointerDown s.

Definition getPressure (s : State) : R := simulatedPressure s.

End Input.

(** ** BristlePaintApplicator.js: the fallback painter *)

Module Applicator.

Import Bristle.

(** *** PAINT_CONFIG *)

Definition strokeWidth : R := 70.
Definition baseOpacity : R := 0.95.
Definition edgeDarkeningAmount : Z := 15.
Definition glossIntensity : R := 0.3.
Definition glossWidth : R := 0.15.
Definition minDistance : R := 15.

(** A 2D canvas context is the sequence of calls it received. *)
Inductive CanvasCall :=
| Save
| Restore
| SetLineCap (v : string)
| SetLineJoin (v : string)
| SetLineWidth (w : R)
| SetStrokeStyle (r g b : Z) (a : R)
| BeginPath
| MoveTo (x y : R)
| LineTo (x y : R)
| Stroke
| ClearRect (x y w h : R)
| PutImageData (img : Z -> Z -> Vec4).

Abbreviation Canvas := (list CanvasCall).

(** The set holds the keys [`${cellX}_${cellY}`]; on the cells the code
    admits (both coordinates in 0..63) a key is its pair of numbers. *)
Record State := mkState {
  dim : R;
  lastPaintedPos : option Vec2;
  paintedCells : gset (Z * Z);
  cellSize : R
}.

(** [new BristlePaintApplicator(canvasDim)] *)
Definition new (canvasDim : R) : State :=
  mkState canvasDim None ∅ (canvasDim / 64).

Definition set_lastPaintedPos (p : option Vec2) (s : State) : State :=
  mkState (dim s) p (paintedCells s) (cellSize s).

Definition set_paintedCells (c : gset (Z * Z)) (s : State) : State :=
  mkState (dim s) (lastPaintedPos s) c (cellSize s).

Definition resetStroke (s : State) : State := set_lastPaintedPos None s.

(** [getPositionFromContacts]: the pressure-weighted centroid. *)
Definition getPositionFromContacts (contacts : list Contact) (s : State) : Vec2 :=
  let '(totalX, totalY, totalWeight) :=
    fold_left
      (fun (acc : R * R * R) (contact : Contact) =>
         let '(totalX, totalY, totalWeight) := acc in
         let weight := if Req_dec_T (contactPressure contact) 0
                       then 0.5 else contactPressure contact in
         (totalX + ux (Bristle.uv contact) * dim s * weight,
          totalY + uy (Bristle.uv contact) * dim s * weight,
          totalWeight + weight))
      contacts (0, 0, 0) in
  let totalWeight := if Req_dec_T totalWeight 0 then 1 else totalWeight in
  mkVec2 (totalX / totalWeight) (totalY / totalWeight).

Definition markCell (cx cy : R) (dx dy : Z) (s : State) : State :=
  let x := cx + IZR dx * cellSize s in
  let y := cy + IZR dy * cellSize s in
  let cellX := Zfloor (x / cellSize s) in
  let cellY := Zfloor (y / cellSize s) in
  if ((0 <=? cellX) && (cellX <? 64) && (0 <=? cellY) && (cellY <? 64))%Z
  then set_paintedCells ({[ (cellX, cellY) ]} ∪ paintedCells s) s
  else s.

Definition markPaintedArea (cx cy radius : R) (s : State) : State :=
  let radiusCells := (Zceil (radius / cellSize s) + 1)%Z in
  forLoopZ (- radiusCells) radiusCells
    (fun dx => forLoopZ (- radiusCells) radiusCells (fun dy => markCell cx cy dx dy))
    s.

Definition getCoverage (s : State) : R :=
  INR (size (paintedCells s)) / (64 * 64).

Section WithColorParser.

(** [parseColor]: the string-to-RGB parser ('#rrggbb', 'rgb(...)' or the
    default pink); the painter only hands its result to the canvas. *)
Variable parseColor : string -> Z * Z * Z.

Definition drawSegment (ctx : Canvas) (from to : Vec2) (color : string)
    (opacity : R) (s : State) : State * Canvas :=
  let '(r, g, b) := parseColor color in
  let width := strokeWidth in
  let finalOpacity := baseOpacity * opacity in
  let darkR := Z.max 0 (r - edgeDarkeningAmount) in
  let darkG := Z.max 0 (g - edgeDarkeningAmount) in
  let darkB := Z.max 0 (b - edgeDarkeningAmount) in
  let dx := ux to - ux from in
  let dy := uy to - uy from in
  let len0 := sqrt (dx * dx + dy * dy) in
  let len := if Req_dec_T len0 0 then 1 else len0 in
  let perpX := - dy / len in
  let perpY := dx / len in
  let glossOffset := width * 0.25 in
  let ctx :=
    ctx ++
    [ Save; SetLineCap "round"; SetLineJoin "round";
      SetLineWidth (width + 4);
      SetStrokeStyle darkR darkG darkB (finalOpacity * 0.5);
      BeginPath; MoveTo (ux from) (uy from); LineTo (ux to) (uy to); Stroke;
      SetLineWidth width;
      SetStrokeStyle r g b finalOpacity;
      BeginPath; MoveTo (ux from) (uy from); LineTo (ux to) (uy to); Stroke;
      SetLineWidth (width * glossWidth);
      SetStrokeStyle 255 255 255 (finalOpacity * glossIntensity);
      BeginPath;
      MoveTo (ux from + perpX * glossOffset) (uy from + perpY * glossOffset);
      LineTo (ux to + perpX * glossOffset) (uy to + perpY * glossOffset);
      Stroke;
      Restore ] in
  let s := markPaintedArea (ux from) (uy from) (width / 2) s in
  let s := markPaintedArea (ux to) (uy to) (width / 2) s in
  (s, ctx).

(** [paint(ctx, contacts, color, opacity)]: 1 if painted, 0 if skipped.
    [ctx] is [None] when the caller has no context to hand over. *)
Definition paint (ctx : option Canvas) (contacts : list Contact) (color : string)
    (opacity : R) (s : State) : State * option Canvas * nat :=
  match ctx, contacts with
  | None, _ => (s, ctx, 0%nat)
  | Some _, [] => (s, ctx, 0%nat)
  | Some c, _ :: _ =>
      let pos := getPositionFromContacts contacts s in
      match lastPaintedPos s with
      | None => (set_lastPaintedPos (Some pos) s, ctx, 0%nat)
      | Some last =>
          let dx := ux pos - ux last in
          let dy := uy pos - uy last in
          let dist := sqrt (dx * dx + dy * dy) in
          if Rlt_dec dist minDistance then (s, ctx, 0%nat)
          else
            let '(s, c) := drawSegment c last pos color opacity s in
            (set_lastPaintedPos (Some pos) s, Some c, 1%nat)
      end
  end.

End WithColorParser.

End Applicator.

(** ** FluidSimulator.js *)

Module Fluid.

(** A render target of [size] x [size] float texels; texel (i, j) holds an
    RGBA value. *)
Definition Field := Z -> Z -> Vec4.

Definition scale4 (k : R) (a : Vec4) : Vec4 :=
  mkVec4 (k * cr a) (k * cg a) (k * cb a) (k * ca a).

(** GLSL [mix(x, y, a) = x * (1 - a) + y * a]. *)
Definition mix (x y a : R) : R := x * (1 - a) + y * a.

Definition mix4 (x y : Vec4) (a : R) : Vec4 :=
  mkVec4 (mix (cr x) (cr y) a) (mix (cg x) (cg y) a)
         (mix (cb x) (cb y) a) (mix (ca x) (ca y) a).

(** ClampToEdgeWrapping. *)
Definition clampIndex (N i : Z) : Z := Z.max 0 (Z.min (N - 1) i).

Definition texel (N : Z) (f : Field) (i j : Z) : Vec4 :=
  f (clampIndex N i) (clampIndex N j).

(** [texture2D] on a LinearFilter target: bilinear blend of the four
    nearest texel centres. *)
Definition texture2D (N : Z) (f : Field) (p : Vec2) : Vec4 :=
  let x := ux p * IZR N - 0.5 in
  let y := uy p * IZR N - 0.5 in
  let i0 := Zfloor x in
  let j0 := Zfloor y in
  let fx := x - IZR i0 in
  let fy := y - IZR j0 in
  mix4 (mix4 (texel N f i0 j0) (texel N f (i0 + 1) j0) fx)
       (mix4 (texel N f i0 (j0 + 1)) (texel N f (i0 + 1) (j0 + 1)) fx)
       fy.

(** The [vUv] of the fragment at texel (i, j). *)
Definition texelUV (N i j : Z) : Vec2 :=
  mkVec2 ((IZR i + 0.5) / IZR N) ((IZR j + 0.5) / IZR N).

(** GLSL [distance]. *)
Definition distance (a b : Vec2) : R :=
  sqrt ((ux a - ux b) * (ux a - ux b) + (uy a - uy b) * (uy a - uy b)).

(** *** The fragment shaders *)

Definition advectShader (N : Z) (uVelocity uSource : Field) (uDt uDissipation : R)
    (vUv : Vec2) : Vec4 :=
  let vel := texture2D N uVelocity vUv in
  let pos := mkVec2 (ux vUv - cr vel * uDt * 0.5) (uy vUv - cg vel * uDt * 0.5) in
  scale4 uDissipation (texture2D N uSource pos).

Definition velocitySplatShader (N : Z) (uSource : Field) (uPoint uVelocity : Vec2)
    (uRadius uStrength : R) (vUv : Vec2) : Vec4 :=
  let base := texture2D N uSource vUv in
  let d := distance vUv uPoint in
  let splat := uStrength * exp (- d * d / uRadius) in
  mkVec4 (cr base + splat * ux uVelocity) (cg base + splat * uy uVelocity)
         (cb base) (ca base).

(** The Gaussian weight of the paint splat, before its clamp. *)
Definition splatWeight (uPoint : Vec2) (uRadius uStrength : R) (vUv : Vec2) : R :=
  let d := distance vUv uPoint in
  uStrength * exp (- d * d / uRadius).

(** The material [splat] builds for the paint pass. *)
Definition paintSplatShader (N : Z) (uSource : Field) (uPoint : Vec2) (uColor : Vec3)
    (uRadius uStrength : R) (vUv : Vec2) : Vec4 :=
  let base := texture2D N uSource vUv in
  let splat := splatWeight uPoint uRadius uStrength vUv in
  mkVec4 (mix (cr base) (vx uColor) (Rmin 1.0 splat))
         (mix (cg base) (vy uColor) (Rmin 1.0 splat))
         (mix (cb base) (vz uColor) (Rmin 1.0 splat))
         (Rmax (ca base) (Rmin 1.0 splat)).

Definition divergenceShader (N : Z) (uVelocity : Field) (vUv : Vec2) : Vec4 :=
  let tx := 1.0 / IZR N in
  let ty := 1.0 / IZR N in
  let L := cr (texture2D N uVelocity (mkVec2 (ux vUv - tx) (uy vUv - 0.0))) in
  let R_ := cr (texture2D N uVelocity (mkVec2 (ux vUv + tx) (uy vUv + 0.0))) in
  let T := cg (texture2D N uVelocity (mkVec2 (ux vUv + 0.0) (uy vUv + ty))) in
  let B := cg (texture2D N uVelocity (mkVec2 (ux vUv - 0.0) (uy vUv - ty))) in
  let div := 0.5 * (R_ - L + T - B) in
  mkVec4 div 0.0 0.0 1.0.

Definition pressureShader (N : Z) (uPressure uDivergence : Field) (vUv : Vec2) : Vec4 :=
  let tx := 1.0 / IZR N in
  let ty := 1.0 / IZR N in
  let L := cr (texture2D N uPressure (mkVec2 (ux vUv - tx) (uy vUv - 0.0))) in
  let R_ := cr (texture2D N uPressure (mkVec2 (ux vUv + tx) (uy vUv + 0.0))) in
  let T := cr (texture2D N uPressure (mkVec2 (ux vUv + 0.0) (uy vUv + ty))) in
  let B := cr (texture2D N uPressure (mkVec2 (ux vUv - 0.0) (uy vUv - ty))) in
  let div := cr (texture2D N uDivergence vUv) in
  let p := (L + R_ + T + B - div) * 0.25 in
  mkVec4 p 0.0 0.0 1.0.

Definition gradientSubtractShader (N : Z) (uPressure uVelocity : Field) (vUv : Vec2)
    : Vec4 :=
  let tx := 1.0 / IZR N in
  let ty := 1.0 / IZR N in
  let L := cr (texture2D N uPressure (mkVec2 (ux vUv - tx) (uy vUv - 0.0))) in
  let R_ := cr (texture2D N uPressure (mkVec2 (ux vUv + tx) (uy vUv + 0.0))) in
  let T := cr (texture2D N uPressure (mkVec2 (ux vUv + 0.0) (uy vUv + ty))) in
  let B := cr (texture2D N uPressure (mkVec2 (ux vUv - 0.0) (uy vUv - ty))) in
  let vel := texture2D N uVelocity vUv in
  mkVec4 (cr vel - 0.5 * (R_ - L)) (cg vel - 0.5 * (T - B)) 0.0 1.0.

(** *** Render passes *)

(** A [renderPass] call: the material and the uniforms it was given. *)
Inductive Pass :=
| AdvectPass (uVelocity uSource : Field) (uDt uDissipation : R)
| VelocitySplatPass (uSource : Field) (uPoint uVelocity : Vec2) (uRadius uStrength : R)
| PaintSplatPass (uSource : Field) (uPoint : Vec2) (uColor : Vec3) (uRadius uStrength : R)
| DivergencePass (uVelocity : Field)
| PressurePass (uPressure uDivergence : Field)
| GradientSubtractPass (uPressure uVelocity : Field).

Definition fragment (N : Z) (p : Pass) : Vec2 -> Vec4 :=
  match p with
  | AdvectPass v src dt diss => advectShader N v src dt diss
  | VelocitySplatPass src pt vel r k => velocitySplatShader N src pt vel r k
  | PaintSplatPass src pt c r k => paintSplatShader N src pt c r k
  | DivergencePass v => divergenceShader N v
  | PressurePass p d => pressureShader N p d
  | GradientSubtractPass p v => gradientSubtractShader N p v
  end.

(** The fullscreen quad covers the target: every texel gets the fragment
    shader's value at its own [vUv]. *)
Definition shade (N : Z) (p : Pass) : Field :=
  fun i j => fragment N p (texelUV N i j).

(** *** The simulator *)

Record DoubleFBO := mkDoubleFBO { read : Field; write : Field }.

Definition swap (d : DoubleFBO) : DoubleFBO := mkDoubleFBO (write d) (read d).

Record Config := mkConfig {
  velocityDissipation : R;
  paintDissipation : R;
  pressureIterations : nat;
  splatRadius : R;
  splatStrength : R
}.

Definition defaultConfig : Config := mkConfig 0.85 1.0 10 0.006 1.0.

(** The WebGL renderer: what [clear()] fills a target with. *)
Record Renderer := mkRenderer { clearValue : Vec4 }.

Record Sim := mkSim {
  renderer : Renderer;
  size : Z;
  config : Config;
  velocity : DoubleFBO;
  paint : DoubleFBO;
  pressure : DoubleFBO;
  divergence : Field;
  lastUV : option Vec2
}.

Definition set_velocity (d : DoubleFBO) (s : Sim) : Sim :=
  mkSim (renderer s) (size s) (config s) d (paint s) (pressure s)
    (divergence s) (lastUV s).

Definition set_paint (d : DoubleFBO) (s : Sim) : Sim :=
  mkSim (renderer s) (size s) (config s) (velocity s) d (pressure s)
    (divergence s) (lastUV s).

Definition set_pressure (d : DoubleFBO) (s : Sim) : Sim :=
  mkSim (renderer s) (size s) (config s) (velocity s) (paint s) d
    (divergence s) (lastUV s).

Definition set_divergence (f : Field) (s : Sim) : Sim :=
  mkSim (renderer s) (size s) (config s) (velocity s) (paint s) (pressure s)
    f (lastUV s).

Definition set_lastUV (u : option Vec2) (s : Sim) : Sim :=
  mkSim (renderer s) (size s) (config s) (velocity s) (paint s) (pressure s)
    (divergence s) u.

Definition set_config (c : Config) (s : Sim) : Sim :=
  mkSim (renderer s) (size s) c (velocity s) (paint s) (pressure s)
    (divergence s) (lastUV s).

(** The simulator together with the passes rendered so far. *)
Definition Run := (Sim * list Pass)%type.

Inductive Target := VelocityWrite | PaintWrite | PressureWrite | Divergence.

Definition writeTarget (t : Target) (f : Field) (s : Sim) : Sim :=
  match t with
  | VelocityWrite => set_velocity (mkDoubleFBO (read (velocity s)) f) s
  | PaintWrite => set_paint (mkDoubleFBO (read (paint s)) f) s
  | PressureWrite => set_pressure (mkDoubleFBO (read (pressure s)) f) s
  | Divergence => set_divergence f s
  end.

(** [renderPass(material, target)], the material's uniforms read from the
    simulator as they are at the call. *)
Definition renderPass (material : Sim -> Pass) (t : Target) (r : Run) : Run :=
  let '(s, log) := r in
  let p := material s in
  (writeTarget t (shade (size s) p) s, log ++ [p]).

Definition onSim (f : Sim -> Sim) (r : Run) : Run := (f (fst r), snd r).

Definition uniform (c : Vec4) : Field := fun _ _ => c.

(** [clear()] *)
Definition clear (s : Sim) : Sim :=
  let c := uniform (clearValue (renderer s)) in
  let s := set_velocity (mkDoubleFBO c c) s in
  let s := set_paint (mkDoubleFBO c c) s in
  let s := set_pressure (mkDoubleFBO c c) s in
  set_lastUV None s.

Definition zeroField : Field := uniform (mkVec4 0 0 0 0).

(** [new FluidSimulator(renderer, size)] *)
Definition new (rdr : Renderer) (sz : Z) : Sim :=
  clear (mkSim rdr sz defaultConfig
           (mkDoubleFBO zeroField zeroField) (mkDoubleFBO zeroField zeroField)
           (mkDoubleFBO zeroField zeroField) zeroField None).

(** [setConfig(config)] with every key given. *)
Definition setConfig (c : Config) (s : Sim) : Sim := set_config c s.

Definition getTexture (s : Sim) : Field := read (paint s).

Section WithThreeColor.

(** [new THREE.Color(color)]: the colour string as r, g, b in 0..1. *)
Variable threeColor : string -> Vec3.

(** [splat(u, v, velocityX, velocityY, color)] *)
Definition splatRun (u v velocityX velocityY : R) (color : string) (r : Run) : Run :=
  let pt := mkVec2 u v in
  let colorVec := threeColor color in
  let r := renderPass
             (fun s => VelocitySplatPass (read (velocity s)) pt
                         (mkVec2 velocityX velocityY)
                         (splatRadius (config s)) (splatStrength (config s)))
             VelocityWrite r in
  let r := onSim (fun s => set_velocity (swap (velocity s)) s) r in
  let r := renderPass
             (fun s => PaintSplatPass (read (paint s)) pt colorVec
                         (splatRadius (config s)) (splatStrength (config s)))
             PaintWrite r in
  onSim (fun s => set_paint (swap (paint s)) s) r.

Definition splat (u v velocityX velocityY : R) (color : string) (s : Sim) : Sim :=
  fst (splatRun u v velocityX velocityY color (s, [])).

End WithThreeColor.

(** [step(dt)] *)
Definition stepRun (dt : R) (r : Run) : Run :=
  let dt := Rmin dt 0.033 in
  let r := renderPass
             (fun s => AdvectPass (read (velocity s)) (read (velocity s)) dt
                         (velocityDissipation (config s)))
             VelocityWrite r in
  let r := onSim (fun s => set_velocity (swap (velocity s)) s) r in
  let r := renderPass
             (fun s => AdvectPass (read (velocity s)) (read (paint s)) dt
                         (paintDissipation (config s)))
             PaintWrite r in
  let r := onSim (fun s => set_paint (swap (paint s)) s) r in
  let r := renderPass (fun s => DivergencePass (read (velocity s))) Divergence r in
  let r := onSim
             (fun s => set_pressure
                         (mkDoubleFBO (uniform (clearValue (renderer s)))
                                      (write (pressure s))) s) r in
  let r := forLoop 0 (pressureIterations (config (fst r)))
             (fun _ r =>
                let r := renderPass
                           (fun s => PressurePass (read (pressure s)) (divergence s))
                           PressureWrite r in
                onSim (fun s => set_pressure (swap (pressure s)) s) r) r in
  let r := renderPass
             (fun s => GradientSubtractPass (read (pressure s)) (read (velocity s)))
             VelocityWrite r in
  onSim (fun s => set_velocity (swap (velocity s)) s) r.

Definition step (dt : R) (s : Sim) : Sim := fst (stepRun dt (s, [])).

Definition stepPasses (dt : R) (s : Sim) : list Pass := snd (stepRun dt (s, [])).

(** [copyToCanvas(canvas)]: the image handed to [putImageData]. *)
Definition canvasImage (width height : R) (s : Sim) : Z -> Z -> Vec4 :=
  let scaleX := IZR (size s) / width in
  let scaleY := IZR (size s) / height in
  fun x y =>
    let sx := Zfloor (IZR x * scaleX) in
    let sy := Zfloor (IZR y * scaleY) in
    let px := read (paint s) sx sy in
    mkVec4 (Rmin 255 (cr px * 255)) (Rmin 255 (cg px * 255))
           (Rmin 255 (cb px * 255)) (Rmin 255 (ca px * 255)).

Definition copyToCanvas (width height : R) (ctx : Applicator.Canvas) (s : Sim)
    : Applicator.Canvas :=
  ctx ++ [Applicator.PutImageData (canvasImage width height s)].

End Fluid.

(** ** PolishBrush3D.js: the controller *)

Module Brush.

Import Bristle.

(** What [onPaintStart], [onPaintEnd] and [onCoverageChange] were called
    with (a callback that is not set drops the call). *)
Inductive Notification :=
| PaintStart
| PaintEnd
| CoverageChange (v : R).

(** The active nail of the hand model: its canvas context, the canvas
    size, and its texture's [needsUpdate] flag. *)
Record Nail := mkNail {
  ctx : Applicator.Canvas;
  canvasWidth : R;
  canvasHeight : R;
  needsUpdate : bool
}.

(** [handModel]: [getNailMesh()] and the nail [getNailCanvas()] finds. *)
Record HandModel := mkHandModel {
  nailMesh : option Mesh;
  activeNail : option Nail
}.

(** The two elements the controller looks up, and whether the container
    carries the class [polish-brush-active]. *)
Record Dom := mkDom {
  hasCanvas : bool;
  hasContainer : bool;
  brushCursorClass : bool
}.

(** The controller, with the handler objects it no longer refers to
    ([releasedHandlers]): a [BrushInputHandler] is an object of its own, and
    giving up the reference to it does not take its listeners off the
    canvas; only its [detach] does. *)
Record State := mkState {
  camera : Input.Camera;
  handModel : HandModel;
  renderer : option Fluid.Renderer;
  dom : Dom;
  isActive : bool;
  isPainting : bool;
  color : string;
  finish : string;
  dim : R;
  fluidSize : Z;
  bristleSystem : Bristle.State;
  inputHandler : option Input.State;
  paintApplicator : Applicator.State;
  fluidSim : option Fluid.Sim;
  useFluidSim : bool;
  lastUV : option Vec2;
  lastTime : R;
  notifications : list Notification;
  releasedHandlers : list Input.State
}.

Definition set_handModel (v : HandModel) (s : State) : State :=
  mkState (camera s) v (renderer s) (dom s) (isActive s) (isPainting s)
    (color s) (finish s) (dim s) (fluidSize s) (bristleSystem s)
    (inputHandler s) (paintApplicator s) (fluidSim s) (useFluidSim s)
    (lastUV s) (lastTime s) (notifications s)
    (releasedHandlers s).

Definition set_renderer (v : option Fluid.Renderer) (s : State) : State :=
  mkState (camera s) (handModel s) v (dom s) (isActive s) (isPainting s)
    (color s) (finish s) (dim s) (fluidSize s) (bristleSystem s)
    (inputHandler s) (paintApplicator s) (fluidSim s) (useFluidSim s)
    (lastUV s) (lastTime s) (notifications s)
    (releasedHandlers s).

Definition set_dom (v : Dom) (s : State) : State :=
  mkState (camera s) (handModel s) (renderer s) v (isActive s) (isPainting s)
    (color s) (finish s) (dim s) (fluidSize s) (bristleSystem s)
    (inputHandler s) (paintApplicator s) (fluidSim s) (useFluidSim s)
    (lastUV s) (lastTime s) (notifications s)
    (releasedHandlers s).

Definition set_isActive (v : bool) (s : State) : State :=
  mkState (camera s) (handModel s) (renderer s) (dom s) v (isPainting s)
    (color s) (finish s) (dim s) (fluidSize s) (bristleSystem s)
    (inputHandler s) (paintApplicator s) (fluidSim s) (useFluidSim s)
    (lastUV s) (lastTime s) (notifications s)
    (releasedHandlers s).

Definition set_isPainting (v : bool) (s : State) : State :=
  mkState (camera s) (handModel s) (renderer s) (dom s) (isActive s) v
    (color s) (finish s) (dim s) (fluidSize s) (bristleSystem s)
    (inputHandler s) (paintApplicator s) (fluidSim s) (useFluidSim s)
    (lastUV s) (lastTime s) (notifications s)
    (releasedHandlers s).

Definition set_color (v : string) (s : State) : State :=
  mkState (camera s) (handModel s) (renderer s) (dom s) (isActive s)
    (isPainting s) v (finish s) (dim s) (fluidSize s) (bristleSystem s)
    (inputHandler s) (paintApplicator s) (fluidSim s) (useFluidSim s)
    (lastUV s) (lastTime s) (notifications s)
    (releasedHandlers s).

Definition set_finish (v : string) (s : State) : State :=
  mkState (camera s) (handModel s) (renderer s) (dom s) (isActive s)
    (isPainting s) (color s) v (dim s) (fluidSize s) (bristleSystem s)
    (inputHandler s) (paintApplicator s) (fluidSim s) (useFluidSim s)
    (lastUV s) (lastTime s) (notifications s)
    (releasedHandlers s).

Definition set_bristleSystem (v : Bristle.State) (s : State) : State :=
  mkState (camera s) (handModel s) (renderer s) (dom s) (isActive s)
    (isPainting s) (color s) (finish s) (dim s) (fluidSize s) v
    (inputHandler s) (paintApplicator s) (fluidSim s) (useFluidSim s)
    (lastUV s) (lastTime s) (notifications s)
    (releasedHandlers s).

Definition set_inputHandler (v : option Input.State) (s : State) : State :=
  mkState (camera s) (handModel s) (renderer s) (dom s) (isActive s)
    (isPainting s) (color s) (finish s) (dim s) (fluidSize s)
    (bristleSystem s) v (paintApplicator s) (fluidSim s) (useFluidSim s)
    (lastUV s) (lastTime s) (notifications s)
    (releasedHandlers s).

Definition set_paintApplicator (v : Applicator.State) (s : State) : State :=
  mkState (camera s) (handModel s) (renderer s) (dom s) (isActive s)
    (isPainting s) (color s) (finish s) (dim s) (fluidSize s)
    (bristleSystem s) (inputHandler s) v (fluidSim s) (useFluidSim s)
    (lastUV s) (lastTime s) (notifications s)
    (releasedHandlers s).

Definition set_fluidSim (v : option Fluid.Sim) (s : State) : State :=
  mkState (camera s) (handModel s) (renderer s) (dom s) (isActive s)
    (isPainting s) (color s) (finish s) (dim s) (fluidSize s)
    (bristleSystem s) (inputHandler s) (paintApplicator s) v (useFluidSim s)
    (lastUV s) (lastTime s) (notifications s)
    (releasedHandlers s).

Definition set_useFluidSim (v : bool) (s : State) : State :=
  mkState (camera s) (handModel s) (renderer s) (dom s) (isActive s)
    (isPainting s) (color s) (finish s) (dim s) (fluidSize s)
    (bristleSystem s) (inputHandler s) (paintApplicator s) (fluidSim s) v
    (lastUV s) (lastTime s) (notifications s)
    (releasedHandlers s).

Definition set_lastUV (v : option Vec2) (s : State) : State :=
  mkState (camera s) (handModel s) (renderer s) (dom s) (isActive s)
    (isPainting s) (color s) (finish s) (dim s) (fluidSize s)
    (bristleSystem s) (inputHandler s) (paintApplicator s) (fluidSim s)
    (useFluidSim s) v (lastTime s) (notifications s)
    (releasedHandlers s).

Definition set_lastTime (v : R) (s : State) : State :=
  mkState (camera s) (handModel s) (renderer s) (dom s) (isActive s)
    (isPainting s) (color s) (finish s) (dim s) (fluidSize s)
    (bristleSystem s) (inputHandler s) (paintApplicator s) (fluidSim s)
    (useFluidSim s) (lastUV s) v (notifications s)
    (releasedHandlers s).

Definition set_notifications (v : list Notification) (s : State) : State :=
  mkState (camera s) (handModel s) (renderer s) (dom s) (isActive s)
    (isPainting s) (color s) (finish s) (dim s) (fluidSize s)
    (bristleSystem s) (inputHandler s) (paintApplicator s) (fluidSim s)
    (useFluidSim s) (lastUV s) (lastTime s) v
    (releasedHandlers s).

Definition set_releasedHandlers (v : list Input.State) (s : State) : State :=
  mkState (camera s) (handModel s) (renderer s) (dom s) (isActive s)
    (isPainting s) (color s) (finish s) (dim s) (fluidSize s)
    (bristleSystem s) (inputHandler s) (paintApplicator s) (fluidSim s)
    (useFluidSim s) (lastUV s) (lastTime s) (notifications s) v.

(** [this.inputHandler = v]: the handler referred to until now, if any, is
    let go of as it is. *)
Definition assignInputHandler (v : option Input.State) (s : State) : State :=
  let s := match inputHandler s with
           | Some old => set_releasedHandlers (releasedHandlers s ++ [old]) s
           | None => s
           end in
  set_inputHandler v s.

(** [new PolishBrush3D(scene, camera, handModel, renderer)]; [now] is
    [performance.now()] and [rand] the stream of [Math.random()]. *)
Definition new (cam : Input.Camera) (hm : HandModel) (rdr : option Fluid.Renderer)
    (d : Dom) (now : R) (rand : nat -> R) : State :=
  mkState cam hm rdr d false false "#ff2a6d" "glossy" 1024 512
    (Bristle.setVisible false (Bristle.new 128 rand))
    None (Applicator.new 1024) None true None now [] [].

Definition onBristle (f : Bristle.State -> Bristle.State) (s : State) : State :=
  set_bristleSystem (f (bristleSystem s)) s.

Definition onApplicator (f : Applicator.State -> Applicator.State) (s : State) : State :=
  set_paintApplicator (f (paintApplicator s)) s.

Definition notify (n : Notification) (s : State) : State :=
  set_notifications (notifications s ++ [n]) s.

Definition initFluidSim (s : State) : State :=
  match renderer s with
  | None => s
  | Some r => set_fluidSim (Some (Fluid.new r (fluidSize s))) s
  end.

Definition setRenderer (r : option Fluid.Renderer) (s : State) : State :=
  let s := set_renderer r s in
  match renderer s, fluidSim s with
  | Some _, None => initFluidSim s
  | _, _ => s
  end.

Definition activate (s : State) : State :=
  if isActive s then s
  else
    let s := set_isActive true s in
    let s := match renderer s, fluidSim s with
             | Some _, None => initFluidSim s
             | _, _ => s
             end in
    let s := if hasCanvas (dom s)
             then assignInputHandler
                    (Some (Input.attach (Input.new (camera s)))) s
             else s in
    let s := if hasContainer (dom s)
             then set_dom (mkDom (hasCanvas (dom s)) (hasContainer (dom s)) true) s
             else s in
    let s := onBristle (Bristle.setVisible true) s in
    let s := onBristle (Bristle.setColor (color s)) s in
    onBristle (Bristle.setBrushTransform (mkVec3 0 0.2 0) (mkVec3 0 1 0)) s.

Definition deactivate (s : State) : State :=
  if negb (isActive s) then s
  else
    let s := set_isActive false s in
    let s := set_isPainting false s in
    let s := match inputHandler s with
             | Some h =>
                 let s := set_inputHandler (Some (Input.detach h)) s in
                 assignInputHandler None s
             | None => s
             end in
    let s := if hasContainer (dom s)
             then set_dom (mkDom (hasCanvas (dom s)) (hasContainer (dom s)) false) s
             else s in
    onBristle (Bristle.setVisible false) s.

Definition setColor (c : string) (s : State) : State :=
  let s := set_color c s in
  onBristle (Bristle.setColor c) s.

Definition setFinish (f : string) (s : State) : State := set_finish f s.

Definition setUseFluidSim (enabled : bool) (s : State) : State :=
  set_useFluidSim enabled s.

Definition getNailMesh (s : State) : option Mesh := nailMesh (handModel s).

Definition getNailCanvas (s : State) : option Nail := activeNail (handModel s).

Definition set_activeNail (n : Nail) (s : State) : State :=
  set_handModel (mkHandModel (nailMesh (handModel s)) (Some n)) s.

(** A pointer event on the canvas runs the listener [f] of every handler
    whose listeners are on the canvas, whether the controller still refers
    to the handler or not. *)
Definition deliver (f : Input.State -> Input.State) (h : Input.State) : Input.State :=
  if Input.attached h then f h else h.

Definition dispatch (f : Input.State -> Input.State) (s : State) : State :=
  let s := set_releasedHandlers (map (deliver f) (releasedHandlers s)) s in
  match inputHandler s with
  | Some h => if Input.attached h then set_inputHandler (Some (f h)) s else s
  | None => s
  end.

(** [clearNail()] *)
Definition clearNail (s : State) : State :=
  match getNailCanvas s with
  | None => s
  | Some nail =>
      let nail := mkNail
                    (ctx nail ++
                       [Applicator.ClearRect 0 0 (canvasWidth nail) (canvasHeight nail)])
                    (canvasWidth nail) (canvasHeight nail) true in
      let s := set_activeNail nail s in
      let s := match fluidSim s with
               | Some sim => set_fluidSim (Some (Fluid.clear sim)) s
               | None => s
               end in
      let s := onApplicator Applicator.resetStroke s in
      let s := set_lastUV None s in
      notify (CoverageChange 0) s
  end.

(** What a frame showed: the pose [getBrushTransform] returned, if it was
    called, and the contacts [bristleSystem.update] returned. *)
Record Frame := mkFrame {
  frameTransform : option Input.Transform;
  frameContacts : list Contact
}.

Section WithParsers.

Variable parseColor : string -> Z * Z * Z.
Variable threeColor : string -> Vec3.

(** The branch of [update] for a pose over the nail. *)
Definition updateValid (h : Input.State) (t : Input.Transform) (s : State) : State :=
  let s := onBristle (Bristle.set_pressure (Input.pressure t)) s in
  let s := onBristle
             (Bristle.set_isContacting
                (if Rlt_dec 0 (Input.pressure t) then true else false)) s in
  let wasPainting := isPainting s in
  let s := set_isPainting (Input.isPainting h) s in
  let s :=
    if isPainting s && negb wasPainting then
      let s := set_lastUV None s in
      let s := onApplicator Applicator.resetStroke s in
      notify PaintStart s
    else if negb (isPainting s) && wasPainting then
      let s := set_lastUV None s in
      let s := onApplicator Applicator.resetStroke s in
      notify PaintEnd s
    else s in
  match isPainting s, fluidSim s, useFluidSim s, Input.uv t with
  | true, Some sim, true, Some uv =>
      let velX := match lastUV s with
                  | Some l => (ux uv - ux l) * 10
                  | None => 0
                  end in
      let velY := match lastUV s with
                  | Some l => (uy uv - uy l) * 10
                  | None => 0
                  end in
      let sim := Fluid.splat threeColor (ux uv) (uy uv) velX velY (color s) sim in
      let s := set_fluidSim (Some sim) s in
      set_lastUV (Some uv) s
  | _, _, _, _ => s
  end.

(** The branch for a pose off the nail. *)
Definition updateInvalid (s : State) : State :=
  let s := onBristle (Bristle.set_pressure 0) s in
  let s := onBristle (Bristle.set_isContacting false) s in
  if isPainting s then
    let s := set_lastUV None s in
    let s := onApplicator Applicator.resetStroke s in
    let s := set_isPainting false s in
    notify PaintEnd s
  else s.

(** The first part of [update]: the handler's pressure is advanced and the
    pose read ([this.inputHandler?.getBrushTransform(nailMesh)]). *)
Definition pollInput (deltaTime : R) (s : State)
    : State * option (Input.State * Input.Transform) :=
  let s := match inputHandler s with
           | Some h => set_inputHandler (Some (Input.updatePressure deltaTime h)) s
           | None => s
           end in
  match inputHandler s with
  | Some h =>
      let '(h, t) := Input.getBrushTransform (getNailMesh s) h in
      (set_inputHandler (Some h) s, Some (h, t))
  | None => (s, None)
  end.

(** [if (transform) { ... }] *)
Definition applyTransform (transform : option (Input.State * Input.Transform))
    (s : State) : State :=
  match transform with
  | Some (h, t) =>
      let s := onBristle
                 (Bristle.setBrushTransform (Input.position t) (Input.normal t)) s in
      if Input.isValid t then updateValid h t s else updateInvalid s
  | None => s
  end.

(** The last part: step the fluid simulation and copy it to the nail's
    canvas, or fall back to the direct painter. *)
Definition paintOutput (deltaTime : R) (contacts : list Contact) (s : State) : State :=
  match fluidSim s, useFluidSim s with
  | Some sim, true =>
      let sim := Fluid.step deltaTime sim in
      let s := set_fluidSim (Some sim) s in
      match activeNail (handModel s) with
      | Some nail =>
          set_activeNail
            (mkNail (Fluid.copyToCanvas (canvasWidth nail) (canvasHeight nail)
                       (ctx nail) sim)
                    (canvasWidth nail) (canvasHeight nail) true) s
      | None => s
      end
  | _, _ =>
      match isPainting s, contacts with
      | true, _ :: _ =>
          match getNailCanvas s with
          | Some nail =>
              let '(app, c, painted) :=
                Applicator.paint parseColor (Some (ctx nail)) contacts
                  (color s) 1.0 (paintApplicator s) in
              let s := set_paintApplicator app s in
              let nail := mkNail (default (ctx nail) c) (canvasWidth nail)
                            (canvasHeight nail)
                            (if Nat.eqb painted 0 then needsUpdate nail else true) in
              set_activeNail nail s
          | None => s
          end
      | _, _ => s
      end
  end.

(** [update(time)], with what the frame showed. *)
Definition updateFrame (time : R) (s : State) : State * Frame :=
  if negb (isActive s) then (s, mkFrame None [])
  else
    let deltaTime := Rmin ((time - lastTime s) / 1000) 0.05 in
    let s := set_lastTime time s in
    let mesh := getNailMesh s in
    let '(s, transform) := pollInput deltaTime s in
    let s := applyTransform transform s in
    let '(bs, contacts) := Bristle.update deltaTime mesh (bristleSystem s) in
    let s := set_bristleSystem bs s in
    let s := paintOutput deltaTime contacts s in
    (s, mkFrame (option_map snd transform) contacts).

Definition update (time : R) (s : State) : State := fst (updateFrame time s).

End WithParsers.

End Brush.

(** * Properties *)

(** ** Loops *)

Lemma fold_left_range_ind {S : Type} (P : nat -> S -> Prop)
    (body : nat -> S -> S) (n lo : nat) (s : S) :
  (forall k s', (lo <= k < lo + n)%nat -> P k s' -> P (Datatypes.S k) (body k s')) ->
  P lo s ->
  P (lo + n)%nat (fold_left (fun acc k => body k acc) (seq lo n) s).
Proof.
  revert lo s. induction n as [|n IH]; intros lo s Hbody Hs; simpl.
  - now rewrite Nat.add_0_r.
  - replace (lo + Datatypes.S n)%nat with (Datatypes.S lo + n)%nat by lia.
    apply IH.
    + intros k s' Hk. apply Hbody. lia.
    + apply Hbody; [lia | exact Hs].
Qed.

(** Induction over a [for] loop that knows which iteration it is in. *)
Lemma forLoop_range_ind {S : Type} (P : nat -> S -> Prop) (lo hi : nat)
    (body : nat -> S -> S) (s : S) :
  (lo <= hi)%nat ->
  (forall k s', (lo <= k < hi)%nat -> P k s' -> P (Datatypes.S k) (body k s')) ->
  P lo s -> P hi (forLoop lo hi body s).
Proof.
  intros Hle Hbody Hs. unfold forLoop.
  replace hi with (lo + (hi - lo))%nat at 1 by lia.
  apply fold_left_range_ind; [|exact Hs].
  intros k s' Hk. apply Hbody. lia.
Qed.

(** An invariant of every iteration in range is an invariant of the loop. *)
Lemma forLoop_inv {S : Type} (P : S -> Prop) (lo hi : nat)
    (body : nat -> S -> S) (s : S) :
  (forall k s', (lo <= k < hi)%nat -> P s' -> P (body k s')) ->
  P s -> P (forLoop lo hi body s).
Proof.
  intros Hbody Hs. destruct (le_lt_dec lo hi) as [Hle|Hgt].
  - apply (forLoop_range_ind (fun _ => P)); auto.
  - unfold forLoop. replace (hi - lo)%nat with 0%nat by lia. exact Hs.
Qed.

(** ** Float32 stores *)









(** ** BristleSystem: the base joint is anchored *)

Module BristleFacts.

Import Bristle.

(** The array slots of a base joint: coordinates 0..2 of every group of
    [jointsPerBristle * 3] numbers. *)
Definition isBaseSlot (k : nat) : Prop := (k mod 12 < 3)%nat.

(** [s'] has the base joints of [s]. *)
Definition sameBase (s s' : State) : Prop :=
  forall k, isBaseSlot k -> jointPositions s' !! k = jointPositions s !! k.

Lemma sameBase_refl (s : State) : sameBase s s.
Proof. intros k _. reflexivity. Qed.

Lemma sameBase_trans (s1 s2 s3 : State) :
  sameBase s1 s2 -> sameBase s2 s3 -> sameBase s1 s3.
Proof. intros H12 H23 k Hk. rewrite H23, H12; auto. Qed.

Lemma jointIndex_slot (i j c : nat) :
  (1 <= j < 4)%nat -> (c < 3)%nat -> ~ isBaseSlot (jointIndex i j + c).
Proof.
  intros Hj Hc. unfold isBaseSlot, jointIndex, jointsPerBristle.
  replace ((i * 4 + j) * 3 + c)%nat with (3 * j + c + i * 12)%nat by lia.
  rewrite Nat.Div0.mod_add. rewrite Nat.mod_small; lia.
Qed.

(** Writing a movable joint leaves every base slot as it was. *)
Lemma wr3_movable (a : list R) (i j : nat) (v : Vec3) (k : nat) :
  (1 <= j < 4)%nat -> isBaseSlot k -> wr3 a (jointIndex i j) v !! k = a !! k.
Proof.
  intros Hj Hk. unfold wr3, wr.
  assert (H0 := jointIndex_slot i j 0 Hj ltac:(lia)).
  assert (H1 := jointIndex_slot i j 1 Hj ltac:(lia)).
  assert (H2 := jointIndex_slot i j 2 Hj ltac:(lia)).
  rewrite Nat.add_0_r in H0.
  rewrite !list_lookup_insert_ne; [reflexivity | | |]; intros Heq; subst k; contradiction.
Qed.

Lemma set_jointPositions_sameBase (s : State) (i j : nat) (v : Vec3) :
  (1 <= j < 4)%nat ->
  sameBase s (set_jointPositions (wr3 (jointPositions s) (jointIndex i j) v) s).
Proof. intros Hj k Hk. simpl. now apply wr3_movable. Qed.

Lemma integrateJoint_sameBase (damping g : R) (i j : nat) (s : State) :
  (1 <= j < 4)%nat -> sameBase s (integrateJoint damping g i j s).
Proof. intros Hj k Hk. unfold integrateJoint. simpl. now apply wr3_movable. Qed.

Lemma stiffenJoint_sameBase (st segLen : R) (d : Vec3) (i j : nat) (s : State) :
  (1 <= j < 4)%nat -> sameBase s (stiffenJoint st segLen d i j s).
Proof. intros Hj k Hk. unfold stiffenJoint. simpl. now apply wr3_movable. Qed.

Lemma constrainSegment_sameBase (segLen : R) (i j : nat) (s : State) :
  (j < 3)%nat -> sameBase s (constrainSegment segLen i j s).
Proof.
  intros Hj k Hk. unfold constrainSegment.
  destruct (Rlt_dec _ _); [|reflexivity].
  destruct (Nat.eqb_spec j 0) as [->|Hne]; simpl.
  - apply wr3_movable; [lia | exact Hk].
  - rewrite wr3_movable by (lia || exact Hk). apply wr3_movable; [lia | exact Hk].
Qed.

Lemma splayJoint_sameBase (nx ny p : R) (i j : nat) (s : State) :
  (1 <= j < 4)%nat -> sameBase s (splayJoint nx ny p i j s).
Proof. intros Hj k Hk. unfold splayJoint. simpl. now apply wr3_movable. Qed.

(** A loop whose every iteration keeps the base joints keeps them. *)
Lemma forLoop_sameBase (lo hi : nat) (body : nat -> State -> State) (s : State) :
  (forall k s', (lo <= k < hi)%nat -> sameBase s' (body k s')) ->
  sameBase s (forLoop lo hi body s).
Proof.
  intros Hbody. apply (forLoop_inv (sameBase s)).
  - intros k s' Hk Hs'. eapply sameBase_trans; [exact Hs' | now apply Hbody].
  - apply sameBase_refl.
Qed.

Lemma satisfyDistanceConstraints_sameBase (s : State) :
  sameBase s (satisfyDistanceConstraints s).
Proof.
  unfold satisfyDistanceConstraints. apply forLoop_sameBase. intros i s1 _.
  apply forLoop_sameBase. intros j s2 Hj.
  apply constrainSegment_sameBase. unfold segmentsPerBristle, jointsPerBristle in Hj.
  simpl in Hj. lia.
Qed.

Lemma stepPhysics_sameBase (dt : R) (s : State) : sameBase s (stepPhysics dt s).
Proof.
  unfold stepPhysics.
  eapply sameBase_trans;
    [|apply forLoop_sameBase; intros it s1 _;
      apply satisfyDistanceConstraints_sameBase].
  apply forLoop_sameBase. intros i s1 _. unfold stepBristle.
  eapply sameBase_trans;
    [|apply forLoop_sameBase; intros j s2 Hj; apply stiffenJoint_sameBase;
      unfold jointsPerBristle in Hj; lia].
  apply forLoop_sameBase. intros j s2 Hj. apply integrateJoint_sameBase.
  unfold jointsPerBristle in Hj. lia.
Qed.

Lemma physicsLoop_sameBase (s : State) : sameBase s (fst (physicsLoop s)).
Proof.
  funelim (physicsLoop s).
  - cbn [fst]. eapply sameBase_trans; [|apply H].
    intros k Hk. unfold fixedStep. cbv zeta.
    transitivity (jointPositions (stepPhysics physicsTimestep s) !! k);
      [reflexivity | now apply stepPhysics_sameBase].
  - apply sameBase_refl.
Qed.

Lemma updatePhysics_sameBase (dt : R) (s : State) : sameBase s (updatePhysics dt s).
Proof.
  unfold updatePhysics, updatePhysicsCounting.
  eapply sameBase_trans; [|apply physicsLoop_sameBase].
  intros k Hk. reflexivity.
Qed.

Lemma applySplay_sameBase (p : R) (s : State) : sameBase s (applySplay p s).
Proof.
  unfold applySplay. destruct (Rle_dec p 0); [apply sameBase_refl|].
  apply forLoop_sameBase. intros i s1 _. unfold splayBristle.
  apply forLoop_sameBase. intros j s2 Hj. apply splayJoint_sameBase.
  unfold jointsPerBristle in Hj. lia.
Qed.

Lemma resolveHit_sameBase (mesh : Mesh) (i : nat) (hit : Hit) (s : State) :
  sameBase s (resolveHit mesh i hit s).
Proof.
  intros k Hk. unfold resolveHit.
  replace ((i * jointsPerBristle + jointsPerBristle - 1) * 3)%nat
    with (jointIndex i 3) by (unfold jointIndex, jointsPerBristle; lia).
  replace ((i * jointsPerBristle + 2) * 3)%nat with (jointIndex i 2) by reflexivity.
  set (s1 := set_jointPositions _ s).
  assert (H1 : jointPositions s1 !! k = jointPositions s !! k).
  { subst s1. simpl. apply wr3_movable; [lia | exact Hk]. }
  match goal with
  | |- jointPositions (match ?u with Some _ => _ | None => ?s2 end) !! _ = _ =>
      assert (H2 : jointPositions s2 !! k = jointPositions s !! k)
  end.
  { destruct (Rlt_dec _ _); [|exact H1].
    destruct (Rlt_dec _ _); [|exact H1].
    simpl. rewrite wr3_movable by (lia || exact Hk). exact H1. }
  destruct (match hitUV hit with Some u => Some u | None => _ end); exact H2.
Qed.

Lemma handleCollision_sameBase (mesh : option Mesh) (s : State) :
  sameBase s (handleCollision mesh s).
Proof.
  unfold handleCollision. destruct mesh as [m|]; [|intros k Hk; reflexivity].
  simpl. destruct (isContacting s); [|intros k Hk; reflexivity].
  eapply sameBase_trans; [|apply forLoop_sameBase].
  - intros k Hk. reflexivity.
  - intros i s1 _. unfold collideBristle.
    destruct (intersectObject _ _ _ _) as [|hit rest]; [apply sameBase_refl|].
    destruct (Rlt_dec _ _); [apply resolveHit_sameBase | apply sameBase_refl].
Qed.

Lemma updateInstanceMatrices_joints (s : State) :
  jointPositions (updateInstanceMatrices s) = jointPositions s.
Proof.
  unfold updateInstanceMatrices.
  apply (forLoop_inv (fun s' => jointPositions s' = jointPositions s)); [|reflexivity].
  intros i s1 _ H1.
  apply (forLoop_inv (fun s' => jointPositions s' = jointPositions s)); [|exact H1].
  intros j s2 _ H2. unfold updateSegmentInstance.
  destruct (Rlt_dec _ _); exact H2.
Qed.

Lemma update_sameBase (dt : R) (mesh : option Mesh) (s : State) :
  sameBase s (fst (update dt mesh s)).
Proof.
  unfold update, updateCounting.
  set (s1 := if Rlt_dec 0 (pressure s) then applySplay (pressure s) s else s).
  assert (H1 : sameBase s s1).
  { subst s1. destruct (Rlt_dec _ _); [apply applySplay_sameBase | apply sameBase_refl]. }
  assert (H2 := updatePhysics_sameBase dt s1).
  unfold updatePhysics in H2.
  destruct (updatePhysicsCounting dt s1) as [s2 steps]. simpl in *.
  assert (H3 := handleCollision_sameBase mesh s2).
  intros k Hk. rewrite updateInstanceMatrices_joints.
  rewrite H3, H2, H1; auto.
Qed.

(** The position of joint 0 of bristle [i]. *)
Definition basePosition (s : State) (i : nat) : Vec3 :=
  rd3 (jointPositions s) (jointIndex i 0).

Lemma sameBase_basePosition (s s' : State) (i : nat) :
  sameBase s s' -> basePosition s' i = basePosition s i.
Proof.
  intros H. unfold basePosition, rd3, rd.
  assert (Hslot : forall c, (c < 3)%nat -> isBaseSlot (jointIndex i 0 + c)).
  { intros c Hc. unfold isBaseSlot, jointIndex, jointsPerBristle.
    replace ((i * 4 + 0) * 3 + c)%nat with (c + i * 12)%nat by lia.
    rewrite Nat.Div0.mod_add. rewrite Nat.mod_small; lia. }
  rewrite (H (jointIndex i 0)), (H (jointIndex i 0 + 1)%nat),
    (H (jointIndex i 0 + 2)%nat); auto.
  specialize (Hslot 0%nat). rewrite Nat.add_0_r in Hslot. apply Hslot. lia.
Qed.

(** C3.  No [update] call moves joint 0 of any bristle: the splay
    displacement, the fixed-step physics (Verlet integration, angular
    stiffness and the constraint projections) and the collision clamping
    each leave every base joint where it was, and so does the whole call. *)
Theorem base_joint_anchored (deltaTime : R) (nailMesh : option Mesh) (s : State) (i : nat) :
  basePosition (fst (update deltaTime nailMesh s)) i = basePosition s i /\
  basePosition (applySplay (pressure s) s) i = basePosition s i /\
  basePosition (stepPhysics physicsTimestep s) i = basePosition s i /\
  basePosition (satisfyDistanceConstraints s) i = basePosition s i /\
  basePosition (updatePhysics deltaTime s) i = basePosition s i /\
  basePosition (handleCollision nailMesh s) i = basePosition s i.
Proof.
  repeat split; apply sameBase_basePosition.
  - apply update_sameBase.
  - apply applySplay_sameBase.
  - apply stepPhysics_sameBase.
  - apply satisfyDistanceConstraints_sameBase.
  - apply updatePhysics_sameBase.
  - apply handleCollision_sameBase.
Qed.

(** *** The fixed-timestep accumulator *)

Lemma physicsLoop_unfold (s : State) :
  physicsLoop s =
  if Rle_dec physicsTimestep (physicsAccumulator s) then
    (fst (physicsLoop (fixedStep s)), Datatypes.S (snd (physicsLoop (fixedStep s))))
  else (s, 0%nat).
Proof.
  rewrite physicsLoop_equation_1. destruct (Rle_dec _ _); reflexivity.
Qed.

Lemma stepsPending_small (acc : R) : acc < physicsTimestep -> stepsPending acc = 0%nat.
Proof.
  intros Hlt. unfold stepsPending.
  assert (Zfloor (acc / physicsTimestep) < 1)%Z; [|lia].
  apply lt_IZR. destruct (Zfloor_bound (acc / physicsTimestep)) as [Hlo _].
  eapply Rle_lt_trans; [exact Hlo|]. unfold physicsTimestep in *. lra.
Qed.

Lemma stepsPending_succ (acc : R) :
  physicsTimestep <= acc ->
  stepsPending acc = Datatypes.S (stepsPending (acc - physicsTimestep)).
Proof.
  intros Hge. unfold stepsPending.
  replace ((acc - physicsTimestep) / physicsTimestep)
    with (acc / physicsTimestep + IZR (-1))
    by (unfold physicsTimestep; simpl; lra).
  rewrite Zfloor_addz.
  assert (1 <= Zfloor (acc / physicsTimestep))%Z.
  { apply Zfloor_lub. unfold physicsTimestep in *. simpl. lra. }
  lia.
Qed.

(** The loop runs as many fixed steps as fit into the accumulator. *)
Lemma physicsLoop_steps (s : State) :
  snd (physicsLoop s) = stepsPending (physicsAccumulator s).
Proof.
  funelim (physicsLoop s).
  - cbn [fst snd]. rewrite H, fixedStep_accumulator.
    symmetry. now apply stepsPending_succ.
  - cbn [snd]. symmetry. apply stepsPending_small. lra.
Qed.

(** It leaves less than one fixed step in the accumulator. *)
Lemma physicsLoop_remainder (s : State) :
  physicsAccumulator (fst (physicsLoop s)) < physicsTimestep.
Proof.
  funelim (physicsLoop s).
  - cbn [fst]. exact H.
  - cbn [fst]. lra.
Qed.

Lemma stepsPending_bound (acc : R) (n : nat) :
  acc < INR (Datatypes.S n) * physicsTimestep -> (stepsPending acc <= n)%nat.
Proof.
  intros Hlt. unfold stepsPending.
  assert (Zfloor (acc / physicsTimestep) < Z.of_nat (Datatypes.S n))%Z; [|lia].
  apply lt_IZR. destruct (Zfloor_bound (acc / physicsTimestep)) as [Hlo _].
  eapply Rle_lt_trans; [exact Hlo|]. rewrite <- INR_IZR_INZ.
  unfold physicsTimestep in *.
  apply Rmult_lt_reg_r with (r := 1 / 120); [lra|].
  replace (acc / (1 / 120) * (1 / 120)) with acc by lra. exact Hlt.
Qed.

Lemma maxSubsteps_value :
  (Z.to_nat (Zceil (maxAccumulatedDt / physicsTimestep)) + 1)%nat = 13%nat.
Proof.
  replace (maxAccumulatedDt / physicsTimestep) with (IZR 12)
    by (unfold maxAccumulatedDt, physicsTimestep; simpl; lra).
  rewrite (Zceil_eq 12); [reflexivity|]. simpl. lra.
Qed.

Lemma applySplay_accumulator (p : R) (s : State) :
  physicsAccumulator (applySplay p s) = physicsAccumulator s.
Proof.
  unfold applySplay. destruct (Rle_dec p 0); [reflexivity|].
  apply (forLoop_inv (fun s' => physicsAccumulator s' = physicsAccumulator s));
    [|reflexivity].
  intros i s1 _ H1. unfold splayBristle.
  apply (forLoop_inv (fun s' => physicsAccumulator s' = physicsAccumulator s));
    [|exact H1].
  intros j s2 _ H2. exact H2.
Qed.

Lemma handleCollision_accumulator (mesh : option Mesh) (s : State) :
  physicsAccumulator (handleCollision mesh s) = physicsAccumulator s.
Proof.
  unfold handleCollision. destruct mesh as [m|]; [|reflexivity].
  simpl. destruct (isContacting s); [|reflexivity].
  apply (forLoop_inv (fun s' => physicsAccumulator s' = physicsAccumulator s));
    [|reflexivity].
  intros i s1 _ H1. unfold collideBristle.
  destruct (intersectObject _ _ _ _) as [|hit rest]; [exact H1|].
  destruct (Rlt_dec _ _); [|exact H1].
  unfold resolveHit.
  destruct (match hitUV hit with Some u => Some u | None => _ end);
    repeat (destruct (Rlt_dec _ _)); exact H1.
Qed.

Lemma updateInstanceMatrices_accumulator (s : State) :
  physicsAccumulator (updateInstanceMatrices s) = physicsAccumulator s.
Proof.
  unfold updateInstanceMatrices.
  apply (forLoop_inv (fun s' => physicsAccumulator s' = physicsAccumulator s));
    [|reflexivity].
  intros i s1 _ H1.
  apply (forLoop_inv (fun s' => physicsAccumulator s' = physicsAccumulator s));
    [|exact H1].
  intros j s2 _ H2. unfold updateSegmentInstance.
  destruct (Rlt_dec _ _); exact H2.
Qed.

Lemma set_bristleParams_accumulator (a b c : list R) (s : State) :
  physicsAccumulator (set_bristleParams a b c s) = physicsAccumulator s.
Proof. reflexivity. Qed.

Lemma initBristle_accumulator (rand : nat -> R) (row col : nat) (a : State * nat) :
  physicsAccumulator (fst (initBristle rand row col a)) = physicsAccumulator (fst a).
Proof.
  destruct a as [s b]. unfold initBristle.
  destruct (b <? bristleCount s)%nat; [|reflexivity].
  cbv zeta. cbn [fst]. rewrite set_bristleParams_accumulator.
  apply (forLoop_inv (fun s' => physicsAccumulator s' = physicsAccumulator s));
    [|reflexivity].
  intros j s' _ Hs'. exact Hs'.
Qed.

Lemma initializePhysics_accumulator (rand : nat -> R) (s : State) :
  physicsAccumulator (initializePhysics rand s) = physicsAccumulator s.
Proof.
  unfold initializePhysics.
  generalize rowCount, colCount. intros rows cols.
  match goal with
  | |- physicsAccumulator (let '(s, _) := ?l in _) = _ =>
      assert (H : physicsAccumulator (fst l) = physicsAccumulator s);
        [|destruct l as [s' b]]
  end.
  - apply (forLoop_inv
             (fun a : State * nat => physicsAccumulator (fst a) = physicsAccumulator s));
      [|reflexivity].
    intros row a _ Ha.
    apply (forLoop_inv
             (fun a : State * nat => physicsAccumulator (fst a) = physicsAccumulator s));
      [|exact Ha].
    intros col a' _ Ha'. now rewrite initBristle_accumulator.
  - rewrite updateInstanceMatrices_accumulator. exact H.
Qed.

(** A freshly built system has an empty accumulator. *)
Lemma new_accumulator (n : nat) (rand : nat -> R) :
  physicsAccumulator (new n rand) = 0.
Proof. unfold new. now rewrite initializePhysics_accumulator. Qed.

(** The steps one [update] call runs. *)
Definition substeps (deltaTime : R) (nailMesh : option Mesh) (s : State) : nat :=
  snd (updateCounting deltaTime nailMesh s).

Lemma updateCounting_update (deltaTime : R) (nailMesh : option Mesh) (s : State) :
  fst (updateCounting deltaTime nailMesh s) = update deltaTime nailMesh s.
Proof. reflexivity. Qed.

(** C5.  Between calls the accumulator holds less than one fixed step (it
    starts at 0 and every call leaves it so); from such a state one [update]
    call runs at most [ceil(maxDt / fixedDt) + 1] = 13 fixed steps, whatever
    [deltaTime] it is given, and leaves the accumulator below one step
    again. *)
Theorem substeps_bounded (deltaTime : R) (nailMesh : option Mesh) (s : State) :
  physicsAccumulator s < physicsTimestep ->
  (substeps deltaTime nailMesh s
     <= Z.to_nat (Zceil (maxAccumulatedDt / physicsTimestep)) + 1)%nat /\
  physicsAccumulator (fst (update deltaTime nailMesh s)) < physicsTimestep.
Proof.
  intros Hacc. rewrite maxSubsteps_value.
  unfold substeps, update, updateCounting.
  set (s1 := if Rlt_dec 0 (pressure s) then applySplay (pressure s) s else s).
  assert (H1 : physicsAccumulator s1 = physicsAccumulator s).
  { subst s1. destruct (Rlt_dec _ _); [apply applySplay_accumulator | reflexivity]. }
  unfold updatePhysicsCounting.
  set (s2 := set_physicsAccumulator _ s1).
  assert (H2 : physicsAccumulator s2 < INR 13 * physicsTimestep).
  { subst s2. simpl physicsAccumulator. rewrite H1.
    assert (Hmin := Rmin_r deltaTime maxAccumulatedDt).
    unfold maxAccumulatedDt, physicsTimestep in *. simpl. lra. }
  assert (Hsteps := physicsLoop_steps s2).
  assert (Hrem := physicsLoop_remainder s2).
  destruct (physicsLoop s2) as [s3 steps]. simpl in *.
  split.
  - rewrite Hsteps. apply Nat.le_trans with 12%nat; [|lia].
    now apply stepsPending_bound.
  - rewrite updateInstanceMatrices_accumulator, handleCollision_accumulator.
    exact Hrem.
Qed.

Definition restingSystem : State := new 128 (fun _ => 0.5).

Lemma substeps_bounded_witness :
  physicsAccumulator restingSystem < physicsTimestep /\
  (substeps 10 None restingSystem
     <= Z.to_nat (Zceil (maxAccumulatedDt / physicsTimestep)) + 1)%nat /\
  physicsAccumulator (fst (update 10 None restingSystem)) < physicsTimestep.
Proof.
  assert (H : physicsAccumulator restingSystem < physicsTimestep).
  { unfold restingSystem. rewrite new_accumulator. unfold physicsTimestep. lra. }
  split; [exact H | exact (substeps_bounded 10 None restingSystem H)].
Defined.

(** *** No contact without [isContacting] *)

Lemma applySplay_isContacting (p : R) (s : State) :
  isContacting (applySplay p s) = isContacting s.
Proof.
  unfold applySplay. destruct (Rle_dec p 0); [reflexivity|].
  apply (forLoop_inv (fun s' => isContacting s' = isContacting s)); [|reflexivity].
  intros i s1 _ H1. unfold splayBristle.
  apply (forLoop_inv (fun s' => isContacting s' = isContacting s)); [|exact H1].
  intros j s2 _ H2. exact H2.
Qed.

Lemma stepPhysics_isContacting (dt : R) (s : State) :
  isContacting (stepPhysics dt s) = isContacting s.
Proof.
  unfold stepPhysics.
  apply (forLoop_inv (fun s' => isContacting s' = isContacting s)).
  - intros _ s' _ Hs'. unfold satisfyDistanceConstraints.
    apply (forLoop_inv (fun s'' => isContacting s'' = isContacting s)); [|exact Hs'].
    intros i s1 _ H1.
    apply (forLoop_inv (fun s'' => isContacting s'' = isContacting s)); [|exact H1].
    intros j s2 _ H2. unfold constrainSegment.
    destruct (Rlt_dec _ _); [|exact H2]. destruct (Nat.eqb j 0); exact H2.
  - apply (forLoop_inv (fun s' => isContacting s' = isContacting s)); [|reflexivity].
    intros i s1 _ H1. unfold stepBristle.
    apply (forLoop_inv (fun s'' => isContacting s'' = isContacting s)).
    + intros j s2 _ H2. exact H2.
    + apply (forLoop_inv (fun s'' => isContacting s'' = isContacting s)); [|exact H1].
      intros j s2 _ H2. exact H2.
Qed.

Lemma physicsLoop_isContacting (s : State) :
  isContacting (fst (physicsLoop s)) = isContacting s.
Proof.
  funelim (physicsLoop s).
  - cbn [fst]. rewrite H. unfold fixedStep. cbv zeta.
    transitivity (isContacting (stepPhysics physicsTimestep s));
      [reflexivity | apply stepPhysics_isContacting].
  - reflexivity.
Qed.

Lemma updateInstanceMatrices_isContacting (s : State) :
  isContacting (updateInstanceMatrices s) = isContacting s.
Proof.
  unfold updateInstanceMatrices.
  apply (forLoop_inv (fun s' => isContacting s' = isContacting s)); [|reflexivity].
  intros i s1 _ H1.
  apply (forLoop_inv (fun s' => isContacting s' = isContacting s)); [|exact H1].
  intros j s2 _ H2. unfold updateSegmentInstance.
  destruct (Rlt_dec _ _); exact H2.
Qed.

(** While the brush is not contacting, [update] reports no contact
    points, whatever the mesh and however the bristles lie. *)
Lemma update_no_contact (deltaTime : R) (nailMesh : option Mesh) (s : State) :
  isContacting s = false ->
  snd (update deltaTime nailMesh s) = [] /\
  isContacting (fst (update deltaTime nailMesh s)) = false.
Proof.
  intros Hc. unfold update, updateCounting.
  set (s1 := if Rlt_dec 0 (pressure s) then applySplay (pressure s) s else s).
  assert (H1 : isContacting s1 = false).
  { subst s1. destruct (Rlt_dec _ _); [rewrite applySplay_isContacting|]; exact Hc. }
  unfold updatePhysicsCounting.
  set (s2 := set_physicsAccumulator _ s1).
  assert (H2 := physicsLoop_isContacting s2).
  destruct (physicsLoop s2) as [s3 steps]. simpl in H2. cbn [fst snd].
  assert (H3 : isContacting s3 = false) by (rewrite H2; exact H1).
  assert (H4 : handleCollision nailMesh s3 = set_contactPoints [] s3).
  { unfold handleCollision. destruct nailMesh as [m|]; [|reflexivity].
    simpl. now rewrite H3. }
  rewrite H4. split; [reflexivity|].
  rewrite updateInstanceMatrices_isContacting. exact H3.
Qed.

Lemma set_bristleParams_isContacting (a b c : list R) (s : State) :
  isContacting (set_bristleParams a b c s) = isContacting s.
Proof. reflexivity. Qed.

Lemma initBristle_isContacting (rand : nat -> R) (row col : nat) (a : State * nat) :
  isContacting (fst (initBristle rand row col a)) = isContacting (fst a).
Proof.
  destruct a as [s b]. unfold initBristle.
  destruct (b <? bristleCount s)%nat; [|reflexivity].
  cbv zeta. cbn [fst]. rewrite set_bristleParams_isContacting.
  apply (forLoop_inv (fun s' => isContacting s' = isContacting s)); [|reflexivity].
  intros j s' _ Hs'. exact Hs'.
Qed.

Lemma initializePhysics_isContacting (rand : nat -> R) (s : State) :
  isContacting (initializePhysics rand s) = isContacting s.
Proof.
  unfold initializePhysics.
  generalize rowCount, colCount. intros rows cols.
  match goal with
  | |- isContacting (let '(s, _) := ?l in _) = _ =>
      assert (H : isContacting (fst l) = isContacting s); [|destruct l as [s' b]]
  end.
  - apply (forLoop_inv (fun a : State * nat => isContacting (fst a) = isContacting s));
      [|reflexivity].
    intros row a _ Ha.
    apply (forLoop_inv (fun a : State * nat => isContacting (fst a) = isContacting s));
      [|exact Ha].
    intros col a' _ Ha'. now rewrite initBristle_isContacting.
  - rewrite updateInstanceMatrices_isContacting. exact H.
Qed.

Lemma new_isContacting (n : nat) (rand : nat -> R) :
  isContacting (new n rand) = false.
Proof. unfold new. now rewrite initializePhysics_isContacting. Qed.

(** *** Segment lengths after the constraint solver *)



(** The arrays have the size the constructor gives them. *)
Definition wellFormed (s : State) : Prop :=
  List.length (jointPositions s) = (bristleCount s * jointsPerBristle * 3)%nat.

(** [s'] has the bristle count, rest length and array size of [s]. *)
Definition sameShape (s s' : State) : Prop :=
  bristleCount s' = bristleCount s /\
  segmentLength s' = segmentLength s /\
  List.length (jointPositions s') = List.length (jointPositions s).

Lemma sameShape_refl (s : State) : sameShape s s.
Proof. repeat split. Qed.

Lemma sameShape_trans (s1 s2 s3 : State) :
  sameShape s1 s2 -> sameShape s2 s3 -> sameShape s1 s3.
Proof.
  intros (A1 & B1 & C1) (A2 & B2 & C2). repeat split; congruence.
Qed.

Lemma length_wr3 (a : list R) (k : nat) (v : Vec3) :
  List.length (wr3 a k v) = List.length a.
Proof. unfold wr3, wr. now rewrite !length_insert. Qed.

Lemma set_jointPositions_sameShape (s : State) (k : nat) (v : Vec3) :
  sameShape s (set_jointPositions (wr3 (jointPositions s) k v) s).
Proof.
  repeat split. cbn [jointPositions set_jointPositions]. apply length_wr3.
Qed.

Lemma forLoop_sameShape (lo hi : nat) (body : nat -> State -> State) (s : State) :
  (forall k s', sameShape s' (body k s')) -> sameShape s (forLoop lo hi body s).
Proof.
  intros Hbody. apply (forLoop_inv (sameShape s)).
  - intros k s' _ Hs'. eapply sameShape_trans; [exact Hs' | apply Hbody].
  - apply sameShape_refl.
Qed.

Lemma integrateJoint_sameShape (damping g : R) (i j : nat) (s : State) :
  sameShape s (integrateJoint damping g i j s).
Proof.
  unfold integrateJoint. cbv zeta. repeat split.
  cbn [jointPositions set_jointPositions set_prevJointPositions]. apply length_wr3.
Qed.

Lemma stiffenJoint_sameShape (st segLen : R) (d : Vec3) (i j : nat) (s : State) :
  sameShape s (stiffenJoint st segLen d i j s).
Proof. unfold stiffenJoint. cbv zeta. apply set_jointPositions_sameShape. Qed.

Lemma constrainSegment_sameShape (segLen : R) (i j : nat) (s : State) :
  sameShape s (constrainSegment segLen i j s).
Proof.
  unfold constrainSegment. cbv zeta.
  destruct (Rlt_dec _ _); [|apply sameShape_refl].
  destruct (Nat.eqb j 0); [apply set_jointPositions_sameShape|].
  repeat split. cbn [jointPositions set_jointPositions]. now rewrite !length_wr3.
Qed.

Lemma satisfyDistanceConstraints_sameShape (s : State) :
  sameShape s (satisfyDistanceConstraints s).
Proof.
  unfold satisfyDistanceConstraints. apply forLoop_sameShape. intros i s1.
  apply forLoop_sameShape. intros j s2. apply constrainSegment_sameShape.
Qed.

(** *** Reading back what was written *)








(** *** Lengths of stored vectors *)
















Lemma stepBristle_sameShape (g segLen : R) (i : nat) (s : State) :
  sameShape s (stepBristle g segLen i s).
Proof.
  unfold stepBristle. cbv zeta.
  eapply sameShape_trans;
    [|apply forLoop_sameShape; intros j s2; apply stiffenJoint_sameShape].
  apply forLoop_sameShape. intros j s2. apply integrateJoint_sameShape.
Qed.


Lemma wellFormed_sameShape (s s' : State) :
  sameShape s s' -> wellFormed s -> wellFormed s'.
Proof. intros (Hn & _ & Hlen) Hwf. unfold wellFormed in *. congruence. Qed.


(** *** The shape of the arrays is kept from the constructor on *)

Lemma splayJoint_sameShape (nx ny p : R) (i j : nat) (s : State) :
  sameShape s (splayJoint nx ny p i j s).
Proof. unfold splayJoint. cbv zeta. apply set_jointPositions_sameShape. Qed.

Lemma applySplay_sameShape (p : R) (s : State) : sameShape s (applySplay p s).
Proof.
  unfold applySplay. destruct (Rle_dec p 0); [apply sameShape_refl|].
  apply forLoop_sameShape. intros i s1. unfold splayBristle. cbv zeta.
  apply forLoop_sameShape. intros j s2. apply splayJoint_sameShape.
Qed.

Lemma stepPhysics_sameShape (dt : R) (s : State) : sameShape s (stepPhysics dt s).
Proof.
  unfold stepPhysics. cbv zeta.
  eapply sameShape_trans;
    [|apply forLoop_sameShape; intros k s'; apply satisfyDistanceConstraints_sameShape].
  apply forLoop_sameShape. intros k s'. apply stepBristle_sameShape.
Qed.

Lemma fixedStep_sameShape (s : State) : sameShape s (fixedStep s).
Proof.
  unfold fixedStep. cbv zeta.
  eapply sameShape_trans; [apply stepPhysics_sameShape|]. repeat split.
Qed.

Lemma physicsLoop_sameShape (s : State) : sameShape s (fst (physicsLoop s)).
Proof.
  funelim (physicsLoop s).
  - cbn [fst]. eapply sameShape_trans; [apply fixedStep_sameShape | exact H].
  - apply sameShape_refl.
Qed.

Lemma resolveHit_sameShape (mesh : Mesh) (i : nat) (hit : Hit) (s : State) :
  sameShape s (resolveHit mesh i hit s).
Proof.
  unfold resolveHit. cbv zeta.
  set (s1 := set_jointPositions _ s).
  assert (H1 : sameShape s s1) by apply set_jointPositions_sameShape.
  match goal with
  | |- sameShape s (match ?u with Some _ => _ | None => ?s2 end) =>
      assert (H2 : sameShape s s2)
  end.
  { destruct (Rlt_dec _ _); [|exact H1].
    destruct (Rlt_dec _ _); [|exact H1].
    eapply sameShape_trans; [exact H1 | apply set_jointPositions_sameShape]. }
  destruct (match hitUV hit with Some u => Some u | None => _ end); [|exact H2].
  eapply sameShape_trans; [exact H2 | repeat split].
Qed.

Lemma handleCollision_sameShape (mesh : option Mesh) (s : State) :
  sameShape s (handleCollision mesh s).
Proof.
  unfold handleCollision. cbv zeta.
  destruct mesh as [m|]; [|repeat split].
  destruct (isContacting (set_contactPoints [] s)); [|repeat split].
  eapply sameShape_trans; [|apply forLoop_sameShape].
  - repeat split.
  - intros i s1. unfold collideBristle. cbv zeta.
    destruct (intersectObject _ _ _ _) as [|hit rest]; [apply sameShape_refl|].
    destruct (Rlt_dec _ _); [apply resolveHit_sameShape | apply sameShape_refl].
Qed.

Lemma updateInstanceMatrices_sameShape (s : State) :
  sameShape s (updateInstanceMatrices s).
Proof.
  unfold updateInstanceMatrices. apply forLoop_sameShape. intros i s1.
  apply forLoop_sameShape. intros j s2. unfold updateSegmentInstance. cbv zeta.
  destruct (Rlt_dec _ _); [repeat split | apply sameShape_refl].
Qed.

Lemma update_sameShape (dt : R) (mesh : option Mesh) (s : State) :
  sameShape s (fst (update dt mesh s)).
Proof.
  unfold update, updateCounting.
  set (s1 := if Rlt_dec 0 (pressure s) then applySplay (pressure s) s else s).
  assert (H1 : sameShape s s1).
  { subst s1. destruct (Rlt_dec _ _); [apply applySplay_sameShape | apply sameShape_refl]. }
  unfold updatePhysicsCounting.
  set (s2 := set_physicsAccumulator _ s1).
  assert (H2 : sameShape s s2).
  { eapply sameShape_trans; [exact H1 | repeat split]. }
  assert (H3 := physicsLoop_sameShape s2).
  destruct (physicsLoop s2) as [s3 steps]. cbn [fst snd] in *.
  eapply sameShape_trans; [|apply updateInstanceMatrices_sameShape].
  eapply sameShape_trans; [|apply handleCollision_sameShape].
  eapply sameShape_trans; [exact H2 | exact H3].
Qed.





(** [update] keeps a system well formed. *)
Lemma update_wellFormed (dt : R) (mesh : option Mesh) (s : State) :
  wellFormed s -> wellFormed (fst (update dt mesh s)).
Proof. apply wellFormed_sameShape, update_sameShape. Qed.

(** *** One joint at a time *)











(** *** Bristles the layout does not reach *)












(** *** A physics step on an unplaced bristle *)



















End BristleFacts.

(** ** The fallback painter: throttling and the first point of a stroke *)

Module ApplicatorFacts.

Import Bristle Applicator.

(** The distance [paint] compares with [minDistance]: from the last painted
    point to the centroid of the contacts. *)
Definition centroidDistance (contacts : list Contact) (last : Vec2) (s : State) : R :=
  let pos := getPositionFromContacts contacts s in
  let dx := ux pos - ux last in
  let dy := uy pos - uy last in
  sqrt (dx * dx + dy * dy).

Section WithColorParser.

Variable parseColor : string -> Z * Z * Z.

(** C7.  A centroid closer than [minDistance] to the last painted point:
    [paint] returns 0, the canvas context receives no call, and the
    painter (coverage grid and last painted point) is left as it was. *)
Theorem paint_below_threshold (ctx : option Canvas) (contacts : list Contact)
    (color : string) (opacity : R) (s : State) (last : Vec2) :
  contacts <> [] ->
  lastPaintedPos s = Some last ->
  centroidDistance contacts last s < minDistance ->
  paint parseColor ctx contacts color opacity s = (s, ctx, 0%nat).
Proof.
  intros Hne Hlast Hdist. unfold paint.
  destruct ctx as [c|]; [|reflexivity].
  destruct contacts as [|c0 rest]; [contradiction|].
  rewrite Hlast. unfold centroidDistance in Hdist.
  destruct (Rlt_dec _ _) as [_|Hge]; [reflexivity | contradiction].
Qed.

(** [paint] answers 0 without touching the canvas or the coverage grid. *)
Lemma paint_skipped (ctx : option Canvas) (contacts : list Contact)
    (color : string) (opacity : R) (s : State) :
  snd (paint parseColor ctx contacts color opacity s) = 0%nat ->
  snd (fst (paint parseColor ctx contacts color opacity s)) = ctx /\
  paintedCells (fst (fst (paint parseColor ctx contacts color opacity s)))
    = paintedCells s.
Proof.
  unfold paint.
  destruct ctx as [c|]; [|auto].
  destruct contacts as [|c0 rest]; [auto|].
  destruct (lastPaintedPos s) as [last|]; [|auto].
  destruct (Rlt_dec _ _); [auto|].
  destruct (drawSegment _ _ _ _ _ _ _) as [s' c']. simpl. discriminate.
Qed.

(** [paint] answers 1 only from a recorded point at least [minDistance]
    away from the new centroid. *)
Lemma paint_drawn (ctx : option Canvas) (contacts : list Contact)
    (color : string) (opacity : R) (s : State) :
  snd (paint parseColor ctx contacts color opacity s) <> 0%nat ->
  exists last,
    lastPaintedPos s = Some last /\
    minDistance <= centroidDistance contacts last s.
Proof.
  unfold paint.
  destruct ctx as [c|]; [|simpl; congruence].
  destruct contacts as [|c0 rest]; [simpl; congruence|].
  destruct (lastPaintedPos s) as [last|]; [|simpl; congruence].
  destruct (Rlt_dec _ _) as [Hlt|Hge]; [simpl; congruence|].
  intros _. exists last. split; [reflexivity|].
  unfold centroidDistance. lra.
Qed.

(** C10.  The first [paint] call after [resetStroke] returns 0, sends
    nothing to the canvas and leaves the coverage grid alone; with a context
    and contacts it records their centroid as the last painted point.  Any
    call that draws (returns 1) starts from such a recorded point, at least
    [minDistance] away from the new centroid: a stroke needs two centroids
    that far apart before anything is drawn. *)
Theorem first_paint_only_records (ctx : option Canvas) (contacts : list Contact)
    (color : string) (opacity : R) (s : State) :
  (let r := paint parseColor ctx contacts color opacity (resetStroke s) in
   snd r = 0%nat /\
   snd (fst r) = ctx /\
   paintedCells (fst (fst r)) = paintedCells s /\
   lastPaintedPos (fst (fst r)) =
     match ctx, contacts with
     | Some _, _ :: _ => Some (getPositionFromContacts contacts s)
     | _, _ => None
     end) /\
  (snd (paint parseColor ctx contacts color opacity s) <> 0%nat ->
   exists last,
     lastPaintedPos s = Some last /\
     minDistance <= centroidDistance contacts last s).
Proof.
  split; [|apply paint_drawn].
  unfold paint, resetStroke.
  destruct ctx as [c|]; [|simpl; auto].
  destruct contacts as [|c0 rest]; simpl; auto.
Qed.

End WithColorParser.

(** A stroke that stays put: last painted point and centroid coincide. *)
Definition pinkParser : string -> Z * Z * Z := fun _ => (255, 42, 109)%Z.

Definition contactAt (u v : R) : Contact :=
  mkContact (mkVec3 0 0 0) (mkVec2 u v) (mkVec3 0 0 1) 1 0.

Definition restingPainter : State :=
  set_lastPaintedPos (Some (mkVec2 512 512)) (Applicator.new 1024).

Lemma centroid_single (u v : R) (s : State) :
  getPositionFromContacts [contactAt u v] s = mkVec2 (u * dim s) (v * dim s).
Proof.
  unfold getPositionFromContacts, contactAt. simpl.
  destruct (Req_dec_T 1 0) as [H|_]; [lra|].
  destruct (Req_dec_T (0 + 1) 0) as [H|_]; [lra|].
  f_equal; lra.
Qed.

Lemma paint_below_threshold_witness :
  [contactAt 0.5 0.5] <> [] /\
  lastPaintedPos restingPainter = Some (mkVec2 512 512) /\
  centroidDistance [contactAt 0.5 0.5] (mkVec2 512 512) restingPainter < minDistance /\
  paint pinkParser (Some []) [contactAt 0.5 0.5] "#ff2a6d" 1 restingPainter
    = (restingPainter, Some [], 0%nat).
Proof.
  assert (Hd : centroidDistance [contactAt 0.5 0.5] (mkVec2 512 512) restingPainter
               < minDistance).
  { unfold centroidDistance. rewrite centroid_single. simpl.
    replace ((0.5 * 1024 - 512) * (0.5 * 1024 - 512) +
             (0.5 * 1024 - 512) * (0.5 * 1024 - 512)) with 0 by lra.
    rewrite sqrt_0. unfold minDistance. lra. }
  split; [discriminate|]. split; [reflexivity|]. split; [exact Hd|].
  apply (paint_below_threshold pinkParser (Some []) [contactAt 0.5 0.5] "#ff2a6d" 1
           restingPainter (mkVec2 512 512)); [discriminate | reflexivity | exact Hd].
Defined.

(** *** The coverage grid only grows *)

Lemma fold_left_hits {S : Type} (I Q : S -> Prop) (body : nat -> S -> S)
    (l : list nat) (m : nat) (s : S) :
  In m l ->
  (forall j s', I s' -> I (body j s')) ->
  (forall s', I s' -> Q (body m s')) ->
  (forall j s', I s' -> Q s' -> Q (body j s')) ->
  I s -> Q (fold_left (fun acc k => body k acc) l s).
Proof.
  intros Hin HI Hm HQ. revert s.
  assert (Hkeep : forall l' s', I s' -> Q s' ->
                    Q (fold_left (fun acc k => body k acc) l' s')).
  { induction l' as [|j l' IH]; intros s' Hs' Hq; simpl; auto. }
  induction l as [|j l IH]; intros s Hs; [contradiction|].
  simpl. destruct Hin as [->|Hin].
  - apply Hkeep; auto.
  - apply IH; auto.
Qed.

(** An iteration inside the bounds of a [for] loop establishes what the
    later ones keep. *)
Lemma forLoopZ_hits {S : Type} (I Q : S -> Prop) (lo hi k : Z)
    (body : Z -> S -> S) (s : S) :
  (lo <= k <= hi)%Z ->
  (forall j s', I s' -> I (body j s')) ->
  (forall s', I s' -> Q (body k s')) ->
  (forall j s', I s' -> Q s' -> Q (body j s')) ->
  I s -> Q (forLoopZ lo hi body s).
Proof.
  intros Hk HI Hm HQ Hs. unfold forLoopZ.
  apply (fold_left_hits I Q (fun n => body (lo + Z.of_nat n)%Z) _ (Z.to_nat (k - lo)));
    auto.
  - apply in_seq. lia.
  - intros s' Hs'. replace (lo + Z.of_nat (Z.to_nat (k - lo)))%Z with k by lia. auto.
Qed.

Lemma markCell_cellSize (cx cy : R) (dx dy : Z) (s : State) :
  cellSize (markCell cx cy dx dy s) = cellSize s.
Proof.
  unfold markCell. destruct (_ && _); reflexivity.
Qed.

Lemma markCell_mono (cx cy : R) (dx dy : Z) (s : State) (c : Z * Z) :
  c ∈ paintedCells s -> c ∈ paintedCells (markCell cx cy dx dy s).
Proof.
  intros Hc. unfold markCell. destruct (_ && _); [|exact Hc].
  simpl. apply elem_of_union. now right.
Qed.

Lemma markPaintedArea_cellSize (cx cy radius : R) (s : State) :
  cellSize (markPaintedArea cx cy radius s) = cellSize s.
Proof.
  unfold markPaintedArea. generalize (Zceil (radius / cellSize s) + 1)%Z. intros rc.
  apply (forLoopZ_ind (fun s' => cellSize s' = cellSize s)); [|reflexivity].
  intros dx s1 H1.
  apply (forLoopZ_ind (fun s' => cellSize s' = cellSize s)); [|exact H1].
  intros dy s2 H2. now rewrite markCell_cellSize.
Qed.

Lemma markPaintedArea_mono (cx cy radius : R) (s : State) (c : Z * Z) :
  c ∈ paintedCells s -> c ∈ paintedCells (markPaintedArea cx cy radius s).
Proof.
  intros Hc. unfold markPaintedArea.
  apply (forLoopZ_ind (fun s' => c ∈ paintedCells s')); [|exact Hc].
  intros dx s1 H1.
  apply (forLoopZ_ind (fun s' => c ∈ paintedCells s')); [|exact H1].
  intros dy s2 H2. now apply markCell_mono.
Qed.

(** The cell under the centre of a marked area, when it is on the grid,
    is in the coverage set afterwards. *)
Lemma markPaintedArea_center (cx cy radius : R) (s : State) (X Y : Z) :
  0 < cellSize s -> 0 <= radius ->
  Zfloor (cx / cellSize s) = X -> Zfloor (cy / cellSize s) = Y ->
  (0 <= X < 64)%Z -> (0 <= Y < 64)%Z ->
  (X, Y) ∈ paintedCells (markPaintedArea cx cy radius s).
Proof.
  intros Hcs Hr HX HY HXr HYr. unfold markPaintedArea.
  assert (Hrc : (0 <= Zceil (radius / cellSize s) + 1)%Z).
  { assert (0 <= Zceil (radius / cellSize s))%Z; [|lia].
    apply le_IZR. destruct (Zceil_bound (radius / cellSize s)) as [_ Hhi].
    eapply Rle_trans; [|exact Hhi]. unfold Rdiv.
    apply Rmult_le_pos; [lra|]. left. now apply Rinv_0_lt_compat. }
  set (rc := (Zceil (radius / cellSize s) + 1)%Z) in *.
  set (I := fun s' : State => cellSize s' = cellSize s).
  set (Q := fun s' : State => (X, Y) ∈ paintedCells s').
  assert (HIinner : forall dx dy s', I s' -> I (markCell cx cy dx dy s')).
  { intros dx dy s' Hs'. unfold I. now rewrite markCell_cellSize. }
  assert (HIrow : forall dx s', I s' ->
            I (forLoopZ (- rc) rc (fun dy => markCell cx cy dx dy) s')).
  { intros dx s' Hs'. apply (forLoopZ_ind I); auto. }
  apply (forLoopZ_hits I Q (- rc) rc 0); try lia; auto.
  - intros s' Hs'.
    apply (forLoopZ_hits I Q (- rc) rc 0); try lia; auto.
    + intros s2 Hs2. unfold Q, markCell. rewrite Hs2.
      replace (cx + 0 * cellSize s) with cx by lra.
      replace (cy + 0 * cellSize s) with cy by lra.
      rewrite HX, HY.
      replace ((0 <=? X)%Z && (X <? 64)%Z && (0 <=? Y)%Z && (Y <? 64)%Z) with true.
      * simpl. apply elem_of_union. left. now apply elem_of_singleton.
      * symmetry. repeat (apply andb_true_intro; split);
          try apply Z.leb_le; try apply Z.ltb_lt; lia.
    + intros dy s2 _ Hq. now apply markCell_mono.
  - intros dx s' _ Hq. apply (forLoopZ_ind Q); auto.
    intros dy s2 Hs2. now apply markCell_mono.
  - reflexivity.
Qed.

Section Drawing.

Variable parseColor : string -> Z * Z * Z.

Lemma drawSegment_cells (c : Canvas) (from to : Vec2) (color : string) (opacity : R)
    (s : State) :
  paintedCells (fst (drawSegment parseColor c from to color opacity s)) =
  paintedCells
    (markPaintedArea (ux to) (uy to) (strokeWidth / 2)
       (markPaintedArea (ux from) (uy from) (strokeWidth / 2) s)).
Proof.
  unfold drawSegment. destruct (parseColor color) as [[r g] b]. reflexivity.
Qed.

(** Moving at least [minDistance] away from the recorded point draws. *)
Lemma paint_draws (c : Canvas) (contacts : list Contact) (color : string)
    (opacity : R) (s : State) (last : Vec2) :
  contacts <> [] ->
  lastPaintedPos s = Some last ->
  minDistance <= centroidDistance contacts last s ->
  paint parseColor (Some c) contacts color opacity s =
    (set_lastPaintedPos (Some (getPositionFromContacts contacts s))
       (fst (drawSegment parseColor c last (getPositionFromContacts contacts s)
               color opacity s)),
     Some (snd (drawSegment parseColor c last (getPositionFromContacts contacts s)
                  color opacity s)),
     1%nat).
Proof.
  intros Hne Hlast Hdist. unfold paint.
  destruct contacts as [|c0 rest]; [contradiction|].
  rewrite Hlast. unfold centroidDistance in Hdist.
  destruct (Rlt_dec _ _) as [Hlt|_]; [lra|].
  simpl. destruct (drawSegment _ _ _ _ _ _ _); reflexivity.
Qed.

End Drawing.

(** A stroke across the nail: the first call records (256, 256), the
    second draws from there to (768, 768). *)
Definition strokePainter : State :=
  let s := Applicator.new 1024 in
  let s := fst (fst (paint pinkParser (Some []) [contactAt 0.25 0.25] "#ff2a6d" 1 s)) in
  fst (fst (paint pinkParser (Some []) [contactAt 0.75 0.75] "#ff2a6d" 1 s)).

Lemma strokePainter_covers : (16, 16)%Z ∈ paintedCells strokePainter.
Proof.
  unfold strokePainter.
  set (s1 := fst (fst (paint pinkParser (Some []) [contactAt 0.25 0.25] "#ff2a6d" 1
                         (Applicator.new 1024)))).
  assert (H1 : s1 = set_lastPaintedPos (Some (mkVec2 256 256)) (Applicator.new 1024)).
  { subst s1. unfold paint. simpl lastPaintedPos. cbn iota.
    rewrite centroid_single. simpl. do 2 f_equal. f_equal; lra. }
  rewrite H1.
  set (s := set_lastPaintedPos (Some (mkVec2 256 256)) (Applicator.new 1024)).
  assert (Hpos : getPositionFromContacts [contactAt 0.75 0.75] s = mkVec2 768 768).
  { rewrite centroid_single. simpl. f_equal; lra. }
  rewrite (paint_draws pinkParser [] [contactAt 0.75 0.75] "#ff2a6d" 1 s
             (mkVec2 256 256)); [| discriminate | reflexivity |].
  - cbn [fst]. cbn [paintedCells set_lastPaintedPos]. rewrite drawSegment_cells.
    apply markPaintedArea_mono.
    apply markPaintedArea_center.
    + simpl. lra.
    + unfold strokeWidth. lra.
    + simpl. replace (256 / (1024 / 64)) with (IZR 16) by (simpl; lra). apply ZfloorZ.
    + simpl. replace (256 / (1024 / 64)) with (IZR 16) by (simpl; lra). apply ZfloorZ.
    + lia.
    + lia.
  - unfold centroidDistance. rewrite Hpos. simpl.
    replace ((768 - 256) * (768 - 256) + (768 - 256) * (768 - 256))
      with (524288) by lra.
    unfold minDistance. rewrite <- (sqrt_square 15) by lra.
    apply sqrt_le_1_alt. lra.
Qed.

Lemma strokePainter_coverage : 0 < getCoverage strokePainter.
Proof.
  unfold getCoverage.
  assert (Hsz : (0 < size (paintedCells strokePainter))%nat).
  { destruct (size (paintedCells strokePainter)) eqn:Hsize; [|lia].
    apply size_empty_inv in Hsize.
    assert (Hin := strokePainter_covers). rewrite Hsize in Hin.
    now apply not_elem_of_empty in Hin. }
  apply Rdiv_lt_0_compat; [|lra]. now apply lt_0_INR.
Qed.

End ApplicatorFacts.

(** ** The controller: clearing, deactivating, reactivating *)

Module BrushFacts.

Import Brush.

Lemma clearNail_applicator (s : State) :
  paintApplicator (clearNail s) =
  match getNailCanvas s with
  | Some _ => Applicator.resetStroke (paintApplicator s)
  | None => paintApplicator s
  end.
Proof.
  unfold clearNail. destruct (getNailCanvas s) as [nail|]; [|reflexivity].
  unfold set_activeNail, set_handModel. cbn. destruct (fluidSim s); reflexivity.
Qed.

(** [clearNail] resets the stroke, not the coverage set. *)
Lemma clearNail_paintedCells (s : State) :
  Applicator.paintedCells (paintApplicator (clearNail s)) =
  Applicator.paintedCells (paintApplicator s).
Proof.
  rewrite clearNail_applicator. destruct (getNailCanvas s); reflexivity.
Qed.

Lemma clearNail_coverage (s : State) :
  Applicator.getCoverage (paintApplicator (clearNail s)) =
  Applicator.getCoverage (paintApplicator s).
Proof. unfold Applicator.getCoverage. now rewrite clearNail_paintedCells. Qed.

Lemma clearNail_fluidSim (s : State) :
  fluidSim (clearNail s) =
  match getNailCanvas s with
  | Some _ => option_map Fluid.clear (fluidSim s)
  | None => fluidSim s
  end.
Proof.
  unfold clearNail. destruct (getNailCanvas s) as [nail|]; [|reflexivity].
  unfold set_activeNail, set_handModel. cbn. destruct (fluidSim s); reflexivity.
Qed.

Lemma clearNail_notifies (s : State) (nail : Nail) :
  getNailCanvas s = Some nail ->
  notifications (clearNail s) = notifications s ++ [CoverageChange 0].
Proof.
  intros Hn. unfold clearNail. rewrite Hn.
  unfold set_activeNail, set_handModel. cbn. destruct (fluidSim s); reflexivity.
Qed.

(** A brush in fallback mode (no renderer, so no fluid simulator) whose
    painter has drawn one stroke across the active nail. *)
Definition frontCamera : Input.Camera :=
  Input.mkCamera (mkVec3 0 0 0) (fun v => v) (fun _ => mkVec3 0 0 0)
    (fun _ => mkVec3 0 0 (-1)).

Definition blankNail : Nail := mkNail [] 1024 1024 false.

Definition paintedBrush : State :=
  set_paintApplicator ApplicatorFacts.strokePainter
    (Brush.new frontCamera (mkHandModel None (Some blankNail)) None
       (mkDom true true false) 0 (fun _ => 0.5)).

(** C1 (the code departs from it).  After a stroke has been drawn,
    [clearNail] tells the coverage listener 0 while [getCoverage] still
    reports the cells of that stroke: the coverage set is never emptied. *)
Theorem clearNail_keeps_coverage :
  0 < Applicator.getCoverage (paintApplicator (clearNail paintedBrush)) /\
  Applicator.getCoverage (paintApplicator (clearNail paintedBrush)) =
    Applicator.getCoverage (paintApplicator paintedBrush) /\
  notifications (clearNail paintedBrush) = [CoverageChange 0].
Proof.
  split; [|split].
  - rewrite clearNail_coverage. apply ApplicatorFacts.strokePainter_coverage.
  - apply clearNail_coverage.
  - rewrite (clearNail_notifies paintedBrush blankNail); reflexivity.
Qed.

(** What [clearNail] does reset: with an active nail, the fluid fields are
    filled with the renderer's clear value. *)
Lemma clearNail_clears_fluid (s : State) (nail : Nail) (sim : Fluid.Sim) :
  getNailCanvas s = Some nail -> fluidSim s = Some sim ->
  exists sim',
    fluidSim (clearNail s) = Some sim' /\
    Fluid.read (Fluid.paint sim') = Fluid.uniform (Fluid.clearValue (Fluid.renderer sim)) /\
    Fluid.write (Fluid.paint sim') = Fluid.uniform (Fluid.clearValue (Fluid.renderer sim)).
Proof.
  intros Hn Hs. rewrite clearNail_fluidSim, Hn, Hs. simpl.
  eexists. split; [reflexivity|]. split; reflexivity.
Qed.

(** Case analysis on the tests the controller makes on its own fields. *)
Ltac case_field s :=
  repeat (cbn;
          match goal with
          | |- context [isActive s] => destruct (isActive s) eqn:?
          | |- context [inputHandler s] => destruct (inputHandler s) eqn:?
          | |- context [hasContainer (dom s)] => destruct (hasContainer (dom s)) eqn:?
          | |- context [hasCanvas (dom s)] => destruct (hasCanvas (dom s)) eqn:?
          | |- context [renderer s] => destruct (renderer s) eqn:?
          | |- context [fluidSim s] => destruct (fluidSim s) eqn:?
          end);
  cbn; auto; try congruence.

Lemma deactivate_fluidSim (s : State) : fluidSim (deactivate s) = fluidSim s.
Proof. unfold deactivate, onBristle. case_field s. Qed.

Lemma deactivate_isContacting (s : State) :
  Bristle.isContacting (bristleSystem (deactivate s))
    = Bristle.isContacting (bristleSystem s).
Proof. unfold deactivate, onBristle. case_field s. Qed.

Lemma activate_fluidSim (s : State) :
  fluidSim (activate s) =
  if isActive s then fluidSim s
  else match fluidSim s with
       | Some sim => Some sim
       | None => option_map (fun rdr => Fluid.new rdr (fluidSize s)) (renderer s)
       end.
Proof. unfold activate, initFluidSim, onBristle. case_field s. Qed.

Lemma activate_isContacting (s : State) :
  Bristle.isContacting (bristleSystem (activate s))
    = Bristle.isContacting (bristleSystem s).
Proof. unfold activate, initFluidSim, onBristle. case_field s. Qed.

Lemma setRenderer_fluidSim (r : option Fluid.Renderer) (s : State) :
  fluidSim (setRenderer r s) =
  match fluidSim s with
  | Some sim => Some sim
  | None => option_map (fun rdr => Fluid.new rdr (fluidSize s)) r
  end.
Proof. unfold setRenderer, initFluidSim. destruct r; case_field s. Qed.

Lemma clearNail_isContacting (s : State) :
  Bristle.isContacting (bristleSystem (clearNail s))
    = Bristle.isContacting (bristleSystem s).
Proof.
  unfold clearNail. destruct (getNailCanvas s) as [nail|]; [|reflexivity].
  unfold set_activeNail, set_handModel. cbn. destruct (fluidSim s); reflexivity.
Qed.

End BrushFacts.

(** ** The fluid simulator: passes of a step, blending of a splat *)

Module FluidFacts.

Import Fluid.

(** The pressure field after [k] Jacobi passes from [p0]. *)
Definition jacobi (N : Z) (d p0 : Field) (k : nat) : Field :=
  Nat.iter k (fun p => shade N (PressurePass p d)) p0.

(** C8.  With the configuration the simulator is built with, [step(dt)]
    clamps [dt] to 0.033 and renders exactly: velocity advected along itself
    with dissipation 0.85 (below 1); paint advected along that new velocity
    with dissipation 1.0; the divergence of the new velocity; ten Jacobi
    pressure passes, each reading the previous one's output, started from a
    cleared pressure target; the pressure-gradient subtraction from the new
    velocity.  The paint and velocity it leaves are the outputs of the second
    and of the last pass. *)
Theorem step_pass_sequence (dt : R) (s : Sim) :
  config s = defaultConfig ->
  let N := size s in
  let dt' := Rmin dt 0.033 in
  let v0 := read (velocity s) in
  let v1 := shade N (AdvectPass v0 v0 dt' 0.85) in
  let p1 := shade N (AdvectPass v1 (read (paint s)) dt' 1.0) in
  let d := shade N (DivergencePass v1) in
  let pr := jacobi N d (uniform (clearValue (renderer s))) in
  stepPasses dt s =
    [AdvectPass v0 v0 dt' 0.85; AdvectPass v1 (read (paint s)) dt' 1.0;
     DivergencePass v1]
    ++ map (fun k => PressurePass (pr k) d) (seq 0 10)
    ++ [GradientSubtractPass (pr 10%nat) v1] /\
  read (paint (step dt s)) = p1 /\
  read (velocity (step dt s)) = shade N (GradientSubtractPass (pr 10%nat) v1) /\
  dt' <= 0.033 /\
  0.85 < 1.
Proof.
  intros Hcfg. destruct s as [rdr N cfg vel pnt prs dv luv].
  simpl in Hcfg. subst cfg. cbv zeta.
  repeat apply conj.
  - reflexivity.
  - reflexivity.
  - reflexivity.
  - apply Rmin_r.
  - lra.
Qed.

(** A simulator as the controller builds it, on a renderer that clears to
    transparent black. *)
Definition freshSim : Sim := Fluid.new (mkRenderer (mkVec4 0 0 0 0)) 512.

Lemma step_pass_sequence_witness :
  config freshSim = defaultConfig /\
  List.length (stepPasses 1 freshSim) = 14%nat /\
  read (paint (step 1 freshSim)) =
    shade 512
      (AdvectPass
         (shade 512 (AdvectPass (read (velocity freshSim)) (read (velocity freshSim))
                       (Rmin 1 0.033) 0.85))
         (read (paint freshSim)) (Rmin 1 0.033) 1.0).
Proof.
  split; [reflexivity|].
  destruct (step_pass_sequence 1 freshSim eq_refl) as (Hlog & Hpaint & _).
  split; [rewrite Hlog; reflexivity | exact Hpaint].
Defined.

(** *** Sampling *)

Lemma mix_same (a t : R) : mix a a t = a.
Proof. unfold mix. ring. Qed.

Lemma mix4_same (a : Vec4) (t : R) : mix4 a a t = a.
Proof. destruct a. unfold mix4. simpl. now rewrite !mix_same. Qed.

Lemma mix4_zero (a b : Vec4) : mix4 a b 0 = a.
Proof. destruct a, b. unfold mix4, mix. simpl. f_equal; ring. Qed.

(** A field with one value everywhere samples to that value. *)
Lemma texture2D_uniform (N : Z) (c : Vec4) (p : Vec2) :
  texture2D N (uniform c) p = c.
Proof. unfold texture2D, texel, uniform. now rewrite !mix4_same. Qed.

Lemma clampIndex_inside (N i : Z) : (0 <= i < N)%Z -> clampIndex N i = i.
Proof. unfold clampIndex. lia. Qed.

(** Sampling a target at one of its own texel centres reads that texel. *)
Lemma texture2D_center (N : Z) (f : Field) (i j : Z) :
  (0 <= i < N)%Z -> (0 <= j < N)%Z ->
  texture2D N f (texelUV N i j) = f i j.
Proof.
  intros Hi Hj. unfold texture2D, texelUV. simpl.
  assert (HN : IZR N <> 0).
  { apply not_0_IZR. lia. }
  replace ((IZR i + 0.5) / IZR N * IZR N - 0.5) with (IZR i) by (field; exact HN).
  replace ((IZR j + 0.5) / IZR N * IZR N - 0.5) with (IZR j) by (field; exact HN).
  rewrite !ZfloorZ. replace (IZR i - IZR i) with 0 by ring.
  replace (IZR j - IZR j) with 0 by ring.
  rewrite !mix4_zero. unfold texel. now rewrite !clampIndex_inside.
Qed.

(** *** The paint splat *)

Inductive Channel := Red | Green | Blue.

Definition channel (c : Channel) (p : Vec4) : R :=
  match c with Red => cr p | Green => cg p | Blue => cb p end.

Definition target (c : Channel) (t : Vec3) : R :=
  match c with Red => vx t | Green => vy t | Blue => vz t end.

(** The Gaussian weight [splat] gives texel (i, j) for a splat at (u, v). *)
Definition weightAt (s : Sim) (u v : R) (i j : Z) : R :=
  splatWeight (mkVec2 u v) (splatRadius (config s)) (splatStrength (config s))
    (texelUV (size s) i j).

Lemma weightAt_default (s : Sim) (u v : R) (i j : Z) :
  config s = defaultConfig -> 0 < weightAt s u v i j <= 1.
Proof.
  intros Hcfg. unfold weightAt, splatWeight. rewrite Hcfg. simpl.
  set (d := distance (texelUV (size s) i j) (mkVec2 u v)).
  assert (Hd : 0 <= d) by apply sqrt_pos.
  assert (Hpos := exp_pos (- d * d / 0.006)).
  split; [lra|].
  assert (Hx : - d * d / 0.006 <= 0) by nra.
  destruct Hx as [Hlt|Heq].
  - apply exp_increasing in Hlt. rewrite exp_0 in Hlt. lra.
  - rewrite Heq, exp_0. lra.
Qed.

Section WithThreeColor.

Variable threeColor : string -> Vec3.

Lemma splat_config (u v velX velY : R) (color : string) (s : Sim) :
  config (splat threeColor u v velX velY color s) = config s.
Proof. reflexivity. Qed.

Lemma splat_size (u v velX velY : R) (color : string) (s : Sim) :
  size (splat threeColor u v velX velY color s) = size s.
Proof. reflexivity. Qed.

Lemma splat_paint (u v velX velY : R) (color : string) (s : Sim) :
  read (paint (splat threeColor u v velX velY color s)) =
  shade (size s)
    (PaintSplatPass (read (paint s)) (mkVec2 u v) (threeColor color)
       (splatRadius (config s)) (splatStrength (config s))).
Proof. reflexivity. Qed.

(** The texel a splat leaves, in terms of the texel it found. *)
Lemma splat_texel (u v velX velY : R) (color : string) (s : Sim) (i j : Z) :
  (0 <= i < size s)%Z -> (0 <= j < size s)%Z ->
  read (paint (splat threeColor u v velX velY color s)) i j =
  let base := read (paint s) i j in
  let w := Rmin 1.0 (weightAt s u v i j) in
  mkVec4 (mix (cr base) (vx (threeColor color)) w)
         (mix (cg base) (vy (threeColor color)) w)
         (mix (cb base) (vz (threeColor color)) w)
         (Rmax (ca base) w).
Proof.
  intros Hi Hj. rewrite splat_paint. unfold shade. simpl fragment.
  unfold paintSplatShader. rewrite texture2D_center by assumption. reflexivity.
Qed.

(** [n] splats of the same colour at the same place. *)
Definition repeatSplat (n : nat) (u v velX velY : R) (color : string) (s : Sim) : Sim :=
  Nat.iter n (splat threeColor u v velX velY color) s.

Lemma repeatSplat_config (n : nat) (u v velX velY : R) (color : string) (s : Sim) :
  config (repeatSplat n u v velX velY color s) = config s /\
  size (repeatSplat n u v velX velY color s) = size s.
Proof.
  induction n as [|n [IHc IHs]]; [split; reflexivity|].
  split; [exact IHc | exact IHs].
Qed.

Lemma repeatSplat_weight (n : nat) (u v velX velY : R) (color : string) (s : Sim)
    (i j : Z) :
  weightAt (repeatSplat n u v velX velY color s) u v i j = weightAt s u v i j.
Proof.
  destruct (repeatSplat_config n u v velX velY color s) as [Hc Hs].
  unfold weightAt. now rewrite Hc, Hs.
Qed.

(** Each splat shrinks the gap to the splat colour by the factor [1 - w]. *)
Lemma repeatSplat_channel (n : nat) (u v velX velY : R) (color : string) (s : Sim)
    (i j : Z) (c : Channel) :
  config s = defaultConfig ->
  (0 <= i < size s)%Z -> (0 <= j < size s)%Z ->
  channel c (read (paint (repeatSplat n u v velX velY color s)) i j)
    - target c (threeColor color) =
  (1 - weightAt s u v i j) ^ n
    * (channel c (read (paint s) i j) - target c (threeColor color)).
Proof.
  intros Hcfg Hi Hj. induction n as [|n IH]; [simpl; ring|].
  destruct (repeatSplat_config n u v velX velY color s) as [Hc Hs].
  change (repeatSplat (S n) u v velX velY color s)
    with (splat threeColor u v velX velY color (repeatSplat n u v velX velY color s)).
  rewrite splat_texel by (rewrite Hs; assumption).
  rewrite repeatSplat_weight. cbv zeta.
  destruct (weightAt_default s u v i j Hcfg) as [_ Hw1].
  replace (Rmin 1.0 (weightAt s u v i j)) with (weightAt s u v i j)
    by (symmetry; apply Rmin_right; lra).
  set (w := weightAt s u v i j) in *.
  set (t := target c (threeColor color)) in *.
  set (x := channel c (read (paint (repeatSplat n u v velX velY color s)) i j)) in *.
  assert (Hstep : forall a b, mix a b w - b = (1 - w) * (a - b)).
  { intros a b. unfold mix. ring. }
  replace (channel c _) with (mix x t w).
  - rewrite Hstep, IH. simpl. ring.
  - subst x t. destruct c; reflexivity.
Qed.

(** C2.  On a simulator with its built-in configuration, a splat leaves at
    every texel of the grid an alpha equal to the maximum of the alpha it
    found and the texel's splat weight (a weight in (0, 1]); that alpha stays
    at most 1 where it was at most 1.  Splatting the same colour at the same
    point again and again, every colour channel keeps between its first
    value and the splat colour, its gap to the splat colour shrinking by the
    factor [1 - w] per splat, and so falls below any positive bound. *)
Theorem splat_alpha_max (u v velX velY : R) (color : string) (s : Sim) (i j : Z)
    (c : Channel) :
  config s = defaultConfig ->
  (0 <= i < size s)%Z -> (0 <= j < size s)%Z ->
  ca (read (paint s) i j) <= 1 ->
  let w := weightAt s u v i j in
  let old := read (paint s) i j in
  let after n := read (paint (repeatSplat n u v velX velY color s)) i j in
  let t := target c (threeColor color) in
  0 < w <= 1 /\
  ca (after 1%nat) = Rmax (ca old) w /\
  ca (after 1%nat) <= 1 /\
  (forall n, Rmin (channel c old) t <= channel c (after n) <= Rmax (channel c old) t) /\
  (forall n, Rabs (channel c (after (S n)) - t) <= Rabs (channel c (after n) - t)) /\
  (forall eps, 0 < eps ->
     exists n0, forall n, (n0 <= n)%nat -> Rabs (channel c (after n) - t) < eps).
Proof.
  intros Hcfg Hi Hj Halpha. cbv zeta.
  destruct (weightAt_default s u v i j Hcfg) as [Hw0 Hw1].
  set (w := weightAt s u v i j) in *.
  set (t := target c (threeColor color)).
  assert (Hgap := fun n => repeatSplat_channel n u v velX velY color s i j c Hcfg Hi Hj).
  fold w t in Hgap.
  assert (Hq : forall n, 0 <= (1 - w) ^ n <= 1).
  { intros n. split; [apply pow_le; lra|].
    apply Rle_trans with (1 ^ n); [apply pow_incr; lra | rewrite pow1; lra]. }
  assert (Halpha1 : ca (read (paint (repeatSplat 1 u v velX velY color s)) i j)
                    = Rmax (ca (read (paint s) i j)) w).
  { change (repeatSplat 1 u v velX velY color s)
      with (splat threeColor u v velX velY color s).
    rewrite splat_texel by assumption. cbv zeta. simpl ca. fold w.
    now rewrite (Rmin_right 1.0 w) by lra. }
  repeat apply conj; try assumption.
  - rewrite Halpha1. apply Rmax_lub; lra.
  - intros n. specialize (Hgap n). specialize (Hq n).
    set (x := channel c (read (paint (repeatSplat n u v velX velY color s)) i j)) in *.
    set (x0 := channel c (read (paint s) i j)) in *.
    unfold Rmin, Rmax. destruct (Rle_dec x0 t); split; nra.
  - intros n. rewrite (Hgap (S n)), (Hgap n). simpl pow.
    rewrite Rmult_assoc, Rabs_mult.
    rewrite (Rabs_right (1 - w)) by lra.
    rewrite <- (Rmult_1_l (Rabs ((1 - w) ^ n * _))) at 2.
    apply Rmult_le_compat_r; [apply Rabs_pos | lra].
  - intros eps Heps.
    set (g := Rabs (channel c (read (paint s) i j) - t)).
    assert (Hg : 0 <= g) by apply Rabs_pos.
    destruct (pow_lt_1_zero (1 - w)) with (y := eps / (g + 1)) as [n0 Hn0].
    + rewrite Rabs_right; lra.
    + apply Rdiv_lt_0_compat; lra.
    + exists n0. intros n Hn. rewrite (Hgap n), Rabs_mult. fold g.
      specialize (Hn0 n ltac:(lia)).
      apply Rle_lt_trans with (Rabs ((1 - w) ^ n) * (g + 1)).
      * apply Rmult_le_compat_l; [apply Rabs_pos | lra].
      * apply Rmult_lt_reg_r with (/ (g + 1)); [apply Rinv_0_lt_compat; lra|].
        rewrite Rmult_assoc, Rinv_r by lra. rewrite Rmult_1_r. exact Hn0.
Qed.

End WithThreeColor.

Definition pureRed : string -> Vec3 := fun _ => mkVec3 1 0 0.

Lemma splat_alpha_max_witness :
  config freshSim = defaultConfig /\
  (0 <= 256 < size freshSim)%Z /\
  ca (read (paint freshSim) 256%Z 256%Z) <= 1 /\
  ca (read (paint (repeatSplat pureRed 1 0.5 0.5 0 0 "#ff0000" freshSim))
        256%Z 256%Z)
    = Rmax (ca (read (paint freshSim) 256%Z 256%Z))
           (weightAt freshSim 0.5 0.5 256%Z 256%Z).
Proof.
  assert (Hr : (0 <= 256 < size freshSim)%Z) by (simpl; lia).
  assert (Ha : ca (read (paint freshSim) 256%Z 256%Z) <= 1) by (simpl; lra).
  split; [reflexivity|]. split; [exact Hr|]. split; [exact Ha|].
  exact (proj1 (proj2 (splat_alpha_max pureRed 0.5 0.5 0 0 "#ff0000" freshSim
                         256%Z 256%Z Red eq_refl Hr Hr Ha))).
Defined.

(** *** A simulator nothing was painted into *)

(** [f] holds [c] at every texel. *)
Definition isUniform (f : Field) (c : Vec4) : Prop := forall i j, f i j = c.

Lemma texture2D_isUniform (N : Z) (f : Field) (c : Vec4) (p : Vec2) :
  isUniform f c -> texture2D N f p = c.
Proof.
  intros Hf. unfold texture2D, texel. rewrite !Hf. now rewrite !mix4_same.
Qed.

Lemma advect_isUniform (N : Z) (v src : Field) (a b : Vec4) (dt k : R) :
  isUniform v a -> isUniform src b ->
  isUniform (shade N (AdvectPass v src dt k)) (scale4 k b).
Proof.
  intros Hv Hs i j. unfold shade. simpl. unfold advectShader.
  now rewrite (texture2D_isUniform N src b).
Qed.

Lemma divergence_isUniform (N : Z) (v : Field) (a : Vec4) :
  isUniform v a ->
  isUniform (shade N (DivergencePass v)) (mkVec4 0 0.0 0.0 1.0).
Proof.
  intros Hv i j. unfold shade. simpl. unfold divergenceShader.
  rewrite !(texture2D_isUniform N v a) by assumption. f_equal. ring.
Qed.

Lemma pressure_isUniform (N : Z) (p d : Field) (a b : Vec4) :
  isUniform p a -> isUniform d b ->
  isUniform (shade N (PressurePass p d))
    (mkVec4 ((cr a + cr a + cr a + cr a - cr b) * 0.25) 0.0 0.0 1.0).
Proof.
  intros Hp Hd i j. unfold shade. simpl. unfold pressureShader.
  rewrite !(texture2D_isUniform N p a) by assumption.
  now rewrite (texture2D_isUniform N d b).
Qed.

Lemma jacobi_isUniform (N : Z) (d p0 : Field) (a b : Vec4) (k : nat) :
  isUniform p0 a -> isUniform d b -> exists c, isUniform (jacobi N d p0 k) c.
Proof.
  intros Hp Hd. induction k as [|k [c Hc]]; [now exists a|].
  eexists. simpl. apply pressure_isUniform; eassumption.
Qed.

Lemma gradient_isUniform (N : Z) (p v : Field) (a b : Vec4) :
  isUniform p a -> isUniform v b ->
  isUniform (shade N (GradientSubtractPass p v)) (mkVec4 (cr b) (cg b) 0.0 1.0).
Proof.
  intros Hp Hv i j. unfold shade. simpl. unfold gradientSubtractShader.
  rewrite !(texture2D_isUniform N p a) by assumption.
  rewrite (texture2D_isUniform N v b) by assumption. f_equal; ring.
Qed.

(** Built-in configuration, one paint value and one velocity value over
    the whole grid: the simulator as [clear] leaves it, and as steps without
    splats keep it. *)
Definition calm (s : Sim) : Prop :=
  config s = defaultConfig /\
  (exists c, isUniform (read (paint s)) c) /\
  (exists v, isUniform (read (velocity s)) v).

Lemma clear_calm (s : Sim) : config s = defaultConfig -> calm (clear s).
Proof.
  intros Hc. split; [exact Hc|].
  split; exists (clearValue (renderer s)); intros i j; reflexivity.
Qed.

Lemma new_calm (rdr : Renderer) (sz : Z) : calm (Fluid.new rdr sz).
Proof. apply clear_calm. reflexivity. Qed.

(** The paint and the velocity a step leaves. *)
Lemma step_outputs (dt : R) (s : Sim) :
  config s = defaultConfig ->
  read (paint (step dt s)) =
    shade (size s)
      (AdvectPass
         (shade (size s)
            (AdvectPass (read (velocity s)) (read (velocity s)) (Rmin dt 0.033) 0.85))
         (read (paint s)) (Rmin dt 0.033) 1.0) /\
  read (velocity (step dt s)) =
    shade (size s)
      (GradientSubtractPass
         (jacobi (size s)
            (shade (size s)
               (DivergencePass
                  (shade (size s)
                     (AdvectPass (read (velocity s)) (read (velocity s))
                        (Rmin dt 0.033) 0.85))))
            (uniform (clearValue (renderer s))) 10)
         (shade (size s)
            (AdvectPass (read (velocity s)) (read (velocity s)) (Rmin dt 0.033) 0.85))).
Proof.
  intros Hcfg. destruct s as [rdr N cfg vel pnt prs dv luv].
  simpl in Hcfg. subst cfg. split; reflexivity.
Qed.

(** A step of a calm simulator moves no paint. *)
Lemma step_calm (dt : R) (s : Sim) :
  calm s ->
  calm (step dt s) /\
  (forall i j, read (paint (step dt s)) i j = read (paint s) i j).
Proof.
  intros (Hcfg & [c Hpaint] & [v Hvel]).
  assert (Hcfg' : config (step dt s) = defaultConfig).
  { clear Hpaint Hvel. destruct s. simpl in Hcfg. subst. reflexivity. }
  destruct (step_outputs dt s Hcfg) as (Hp & Hv).
  assert (Hv1 := advect_isUniform (size s) _ _ v v (Rmin dt 0.033) 0.85 Hvel Hvel).
  assert (Hp1 := advect_isUniform (size s) _ _ _ c (Rmin dt 0.033) 1.0 Hv1 Hpaint).
  assert (Hc1 : scale4 1.0 c = c).
  { destruct c. unfold scale4. simpl. f_equal; lra. }
  rewrite Hc1 in Hp1.
  assert (Hd := divergence_isUniform (size s) _ _ Hv1).
  destruct (jacobi_isUniform (size s) _ (uniform (clearValue (renderer s))) _ _ 10
              (fun _ _ => eq_refl) Hd) as [q Hq].
  assert (Hg := gradient_isUniform (size s) _ _ _ _ Hq Hv1).
  split; [split; [|split]|].
  - exact Hcfg'.
  - exists c. rewrite Hp. exact Hp1.
  - eexists. rewrite Hv. exact Hg.
  - intros i j. rewrite Hp, Hp1, Hpaint. reflexivity.
Qed.

End FluidFacts.

(** ** A pointer that never meets the nail *)

Module InertFacts.

Import Bristle Brush.

(** The pointer ray of the attached handler, if any, meets nothing. *)
Definition pointerMisses (s : State) : Prop :=
  match inputHandler s with
  | Some h => Input.pointerIntersections (getNailMesh s) h = []
  | None => True
  end.

(** Where the miss pose is put: [defaultDistance] along the pointer ray from
    the camera position, moved by the camera-rotated tip offset. *)
Definition missPosition (cam : Input.Camera) (m : Vec2) : Vec3 :=
  add (addScaledVector (Input.cameraPosition cam) (Input.rayDirection cam m)
         Input.defaultDistance)
      (Input.applyQuaternion cam Input.tipOffset).

(** The bristles are not contacting and the fluid simulator, if there is
    one, is calm. *)
Definition untouched (s : State) : Prop :=
  Bristle.isContacting (bristleSystem s) = false /\
  (forall sim, fluidSim s = Some sim -> FluidFacts.calm sim).

(** The paint held by [s'] is the paint held by [s]: the same value at every
    texel of the fluid's paint field, the same coverage cells, and outside
    the fluid path the same nail canvas. *)
Definition paintKept (s s' : State) : Prop :=
  match fluidSim s with
  | Some sim =>
      exists sim',
        fluidSim s' = Some sim' /\
        forall i j, Fluid.read (Fluid.paint sim') i j = Fluid.read (Fluid.paint sim) i j
  | None => fluidSim s' = None
  end /\
  Applicator.paintedCells (paintApplicator s')
    = Applicator.paintedCells (paintApplicator s) /\
  match fluidSim s, useFluidSim s with
  | Some _, true => True
  | _, _ => handModel s' = handModel s
  end.

Lemma getBrushTransform_miss (mesh : option Mesh) (h : Input.State) :
  Input.pointerIntersections mesh h = [] ->
  Input.getBrushTransform mesh h = (h, Input.missTransform h).
Proof. intros Hm. unfold Input.getBrushTransform. now rewrite Hm. Qed.

Lemma updatePressure_intersections (dt : R) (mesh : option Mesh) (h : Input.State) :
  Input.pointerIntersections mesh (Input.updatePressure dt h)
    = Input.pointerIntersections mesh h.
Proof.
  unfold Input.updatePressure. destruct (Input.isPointerDown h); reflexivity.
Qed.

Lemma updatePressure_view (dt : R) (h : Input.State) :
  Input.camera (Input.updatePressure dt h) = Input.camera h /\
  Input.mouse (Input.updatePressure dt h) = Input.mouse h.
Proof.
  unfold Input.updatePressure. destruct (Input.isPointerDown h); split; reflexivity.
Qed.

Lemma pollInput_miss (dt : R) (s : State) :
  pointerMisses s ->
  pollInput dt s =
  match inputHandler s with
  | Some h =>
      let h' := Input.updatePressure dt h in
      (set_inputHandler (Some h') (set_inputHandler (Some h') s),
       Some (h', Input.missTransform h'))
  | None => (s, None)
  end.
Proof.
  unfold pointerMisses, pollInput. destruct (inputHandler s) as [h|] eqn:Hh.
  - intros Hm. cbn.
    change (getNailMesh (set_inputHandler (Some (Input.updatePressure dt h)) s))
      with (getNailMesh s).
    rewrite getBrushTransform_miss; [reflexivity|].
    now rewrite updatePressure_intersections.
  - intros _. rewrite Hh. reflexivity.
Qed.

Section WithParsers.

Variable parseColor : string -> Z * Z * Z.
Variable threeColor : string -> Vec3.

Lemma updateInvalid_effect (s : State) :
  Bristle.isContacting (bristleSystem (updateInvalid s)) = false /\
  fluidSim (updateInvalid s) = fluidSim s /\
  useFluidSim (updateInvalid s) = useFluidSim s /\
  handModel (updateInvalid s) = handModel s /\
  isPainting (updateInvalid s) = false /\
  Applicator.paintedCells (paintApplicator (updateInvalid s))
    = Applicator.paintedCells (paintApplicator s).
Proof.
  unfold updateInvalid. cbn. destruct (isPainting s) eqn:Hp; cbn; auto 10.
Qed.

Lemma paintOutput_idle (dt : R) (s : State) :
  bristleSystem (paintOutput parseColor dt [] s) = bristleSystem s /\
  fluidSim (paintOutput parseColor dt [] s) =
    match fluidSim s, useFluidSim s with
    | Some sim, true => Some (Fluid.step dt sim)
    | _, _ => fluidSim s
    end /\
  paintApplicator (paintOutput parseColor dt [] s) = paintApplicator s /\
  match fluidSim s, useFluidSim s with
  | Some _, true => True
  | _, _ => handModel (paintOutput parseColor dt [] s) = handModel s
  end.
Proof.
  unfold paintOutput.
  destruct (fluidSim s) as [sim|] eqn:Hf; destruct (useFluidSim s) eqn:Hu; cbn;
    try (destruct (isPainting s); rewrite ?Hf; auto; fail).
  destruct (activeNail (handModel s)); cbn; auto.
Qed.

(** One frame from an untouched brush whose pointer ray misses. *)
Lemma updateFrame_miss (time : R) (s : State) :
  untouched s -> pointerMisses s ->
  untouched (fst (updateFrame parseColor threeColor time s)) /\
  match frameTransform (snd (updateFrame parseColor threeColor time s)) with
  | Some t =>
      Input.isValid t = false /\ Input.pressure t = 0 /\ Input.uv t = None /\
      exists h, inputHandler s = Some h /\
                Input.position t = missPosition (Input.camera h) (Input.mouse h)
  | None => True
  end /\
  frameContacts (snd (updateFrame parseColor threeColor time s)) = [] /\
  paintKept s (fst (updateFrame parseColor threeColor time s)).
Proof.
  intros [Hcontact Hcalm] Hmiss. unfold updateFrame.
  destruct (isActive s) eqn:Hact; cbn [negb].
  2:{ cbn. split; [split; assumption|]. split; [exact I|]. split; [reflexivity|].
      unfold paintKept. destruct (fluidSim s) as [sim|]; [|auto].
      split; [eauto|]. split; [reflexivity|]. destruct (useFluidSim s); auto. }
  set (dt := Rmin ((time - lastTime s) / 1000) 0.05).
  set (s0 := set_lastTime time s).
  assert (Hmiss0 : pointerMisses s0) by exact Hmiss.
  rewrite (pollInput_miss dt s0 Hmiss0).
  change (inputHandler s0) with (inputHandler s).
  change (getNailMesh s0) with (getNailMesh s).
  (* the state after the pose was applied *)
  assert (Hafter : exists s1 tr,
            (match inputHandler s with
             | Some h =>
                 let h' := Input.updatePressure dt h in
                 (set_inputHandler (Some h') (set_inputHandler (Some h') s0),
                  Some (h', Input.missTransform h'))
             | None => (s0, None)
             end) = (s1, tr) /\
            Bristle.isContacting (bristleSystem (applyTransform threeColor tr s1)) = false /\
            fluidSim (applyTransform threeColor tr s1) = fluidSim s /\
            useFluidSim (applyTransform threeColor tr s1) = useFluidSim s /\
            handModel (applyTransform threeColor tr s1) = handModel s /\
            Applicator.paintedCells (paintApplicator (applyTransform threeColor tr s1))
              = Applicator.paintedCells (paintApplicator s) /\
            match option_map snd tr with
            | Some t =>
                Input.isValid t = false /\ Input.pressure t = 0 /\ Input.uv t = None /\
                exists h, inputHandler s = Some h /\
                          Input.position t = missPosition (Input.camera h) (Input.mouse h)
            | None => True
            end).
  { destruct (inputHandler s) as [h|] eqn:Hh.
    - eexists _, _. split; [reflexivity|]. cbn [applyTransform option_map snd].
      change (Input.isValid (Input.missTransform (Input.updatePressure dt h)))
        with false. cbv iota.
      match goal with
      | |- context [updateInvalid ?x] =>
          destruct (updateInvalid_effect x) as (H1 & H2 & H3 & H4 & _ & H6)
      end.
      rewrite H1, H2, H3, H4, H6.
      repeat apply conj; try reflexivity.
      exists h. split; [reflexivity|].
      destruct (updatePressure_view dt h) as [Hcam Hmouse].
      unfold missPosition. rewrite <- Hcam, <- Hmouse. reflexivity.
    - exists s0, None. split; [reflexivity|]. cbn. auto 10. }
  destruct Hafter as (s1 & tr & Hpoll & Hc1 & Hf1 & Hu1 & Hh1 & Hp1 & Htr).
  rewrite Hpoll.
  destruct (BristleFacts.update_no_contact dt (getNailMesh s)
              (bristleSystem (applyTransform threeColor tr s1)) Hc1)
    as [Hnone Hstill].
  destruct (Bristle.update dt (getNailMesh s)
              (bristleSystem (applyTransform threeColor tr s1)))
    as [bs contacts].
  cbn [fst snd] in Hnone, Hstill. subst contacts.
  cbn [fst snd frameTransform frameContacts].
  set (s2 := set_bristleSystem bs (applyTransform threeColor tr s1)).
  destruct (paintOutput_idle dt s2) as (Hb & Hf & Ha & Hhm).
  change (fluidSim s2) with (fluidSim (applyTransform threeColor tr s1)) in Hf, Hhm.
  change (useFluidSim s2) with (useFluidSim (applyTransform threeColor tr s1)) in Hf, Hhm.
  rewrite Hf1, Hu1 in Hf, Hhm.
  repeat apply conj.
  - rewrite Hb. exact Hstill.
  - intros sim' Hsim'. rewrite Hf in Hsim'.
    destruct (fluidSim s) as [sim|] eqn:Hs; [|discriminate].
    destruct (useFluidSim s).
    + inversion Hsim'; subst sim'. apply FluidFacts.step_calm. now apply Hcalm.
    + inversion Hsim'; subst sim'. now apply Hcalm.
  - exact Htr.
  - reflexivity.
  - rewrite Hf. destruct (fluidSim s) as [sim|] eqn:Hs; [|reflexivity].
    destruct (useFluidSim s).
    + eexists. split; [reflexivity|]. apply FluidFacts.step_calm. now apply Hcalm.
    + eexists. split; [reflexivity|]. reflexivity.
  - rewrite Ha. exact Hp1.
  - destruct (fluidSim s) as [sim|]; [destruct (useFluidSim s)|]; auto;
      rewrite Hhm; exact Hh1.
Qed.

End WithParsers.

(** A pointer event reaches handlers only. *)
Lemma dispatch_fields (f : Input.State -> Input.State) (s : State) :
  bristleSystem (dispatch f s) = bristleSystem s /\
  fluidSim (dispatch f s) = fluidSim s /\
  paintApplicator (dispatch f s) = paintApplicator s /\
  handModel (dispatch f s) = handModel s.
Proof.
  unfold dispatch. cbn.
  destruct (inputHandler s) as [h|]; [destruct (Input.attached h)|]; repeat split.
Qed.

Lemma dispatch_untouched (f : Input.State -> Input.State) (s : State) :
  untouched s -> untouched (dispatch f s).
Proof.
  intros [Hc Hf]. destruct (dispatch_fields f s) as (Hb & Hs & _).
  unfold untouched. rewrite Hb, Hs. split; assumption.
Qed.

Lemma dispatch_paintKept (f : Input.State -> Input.State) (s : State) :
  paintKept s (dispatch f s).
Proof.
  assert (Hsame : forall s', fluidSim s' = fluidSim s ->
            paintApplicator s' = paintApplicator s -> handModel s' = handModel s ->
            paintKept s s').
  { intros s' Hf Ha Hh. unfold paintKept. rewrite Hf, Ha, Hh.
    split; [destruct (fluidSim s); eauto|].
    split; [reflexivity|]. destruct (fluidSim s); [destruct (useFluidSim s)|]; auto. }
  destruct (dispatch_fields f s) as (_ & Hf & Ha & Hh). now apply Hsame.
Qed.

Lemma setVisible_isContacting (v : bool) (b : Bristle.State) :
  Bristle.isContacting (Bristle.setVisible v b) = Bristle.isContacting b.
Proof. reflexivity. Qed.

Lemma new_bristleSystem (cam : Input.Camera) (hm : HandModel)
    (rdr : option Fluid.Renderer) (d : Dom) (now : R) (rand : nat -> R) :
  bristleSystem (Brush.new cam hm rdr d now rand)
    = Bristle.setVisible false (Bristle.new 128 rand).
Proof. reflexivity. Qed.

Lemma new_brush_isContacting (cam : Input.Camera) (hm : HandModel)
    (rdr : option Fluid.Renderer) (d : Dom) (now : R) (rand : nat -> R) :
  Bristle.isContacting (bristleSystem (Brush.new cam hm rdr d now rand)) = false.
Proof.
  rewrite new_bristleSystem, setVisible_isContacting.
  apply BristleFacts.new_isContacting.
Qed.

Section Sessions.

Variable parseColor : string -> Z * Z * Z.
Variable threeColor : string -> Vec3.

(** The states of a session in which no [update] ever saw the pointer ray
    meet the nail: a new controller, operated and driven by pointer events
    in any order, the hand model free to change under it. *)
Inductive neverHit : State -> Prop :=
| nh_new cam hm rdr d now rand : neverHit (Brush.new cam hm rdr d now rand)
| nh_activate s : neverHit s -> neverHit (activate s)
| nh_deactivate s : neverHit s -> neverHit (deactivate s)
| nh_setColor c s : neverHit s -> neverHit (setColor c s)
| nh_setFinish f s : neverHit s -> neverHit (setFinish f s)
| nh_setUseFluidSim b s : neverHit s -> neverHit (setUseFluidSim b s)
| nh_setRenderer r s : neverHit s -> neverHit (setRenderer r s)
| nh_clearNail s : neverHit s -> neverHit (clearNail s)
| nh_pointerDown e s : neverHit s -> neverHit (dispatch (Input.onPointerDown e) s)
| nh_pointerMove e s : neverHit s -> neverHit (dispatch (Input.onPointerMove e) s)
| nh_pointerUp s : neverHit s -> neverHit (dispatch Input.onPointerUp s)
| nh_handModel hm s : neverHit s -> neverHit (set_handModel hm s)
| nh_update time s :
    neverHit s -> pointerMisses s ->
    neverHit (update parseColor threeColor time s).

Lemma neverHit_untouched (s : State) : neverHit s -> untouched s.
Proof.
  induction 1 as [cam hm rdr d now rand | s _ [IHc IHf] | s _ [IHc IHf]
                 | c s _ [IHc IHf] | f s _ IH | b s _ IH | r s _ [IHc IHf]
                 | s _ [IHc IHf] | e s _ IH | e s _ IH | s _ IH | hm s _ IH
                 | time s _ IH Hmiss].
  - split; [|discriminate]. apply new_brush_isContacting.
  - split; [now rewrite BrushFacts.activate_isContacting|].
    intros sim. rewrite BrushFacts.activate_fluidSim.
    destruct (isActive s); [apply IHf|].
    destruct (fluidSim s) as [sim0|]; [apply IHf|].
    destruct (renderer s); cbn; [|discriminate].
    intros Heq. inversion Heq. apply FluidFacts.new_calm.
  - split; [now rewrite BrushFacts.deactivate_isContacting|].
    intros sim. rewrite BrushFacts.deactivate_fluidSim. apply IHf.
  - split; [exact IHc | exact IHf].
  - exact IH.
  - exact IH.
  - split.
    { unfold setRenderer, initFluidSim. cbn.
      destruct r; destruct (fluidSim s); cbn; exact IHc. }
    intros sim. rewrite BrushFacts.setRenderer_fluidSim.
    destruct (fluidSim s) as [sim0|]; [apply IHf|].
    destruct r; cbn; [|discriminate].
    intros Heq. inversion Heq. apply FluidFacts.new_calm.
  - split; [now rewrite BrushFacts.clearNail_isContacting|].
    intros sim. rewrite BrushFacts.clearNail_fluidSim.
    destruct (getNailCanvas s); [|apply IHf].
    destruct (fluidSim s) as [sim0|]; cbn; [|discriminate].
    intros Heq. inversion Heq. apply FluidFacts.clear_calm.
    now destruct (IHf sim0 eq_refl).
  - now apply dispatch_untouched.
  - now apply dispatch_untouched.
  - now apply dispatch_untouched.
  - exact IH.
  - now apply updateFrame_miss.
Qed.

(** C6, as the code has it.  In a session whose pointer ray never meets the
    nail, [getBrushTransform] returns an invalid pose with pressure 0 and no
    UV, placed at the fixed default distance along the pointer ray and then
    moved by the camera-rotated tip offset; [update] gets no contact point
    from the bristle system; and it leaves the paint as it was: every texel
    of the fluid's paint field, the coverage cells, and in the fallback path
    the nail canvas. *)
Theorem pointer_miss_is_inert (time : R) (s : State) :
  neverHit s -> pointerMisses s ->
  match inputHandler s with
  | Some h =>
      let t := snd (Input.getBrushTransform (getNailMesh s) h) in
      Input.isValid t = false /\ Input.pressure t = 0 /\ Input.uv t = None /\
      Input.position t = missPosition (Input.camera h) (Input.mouse h)
  | None => True
  end /\
  match frameTransform (snd (updateFrame parseColor threeColor time s)) with
  | Some t =>
      Input.isValid t = false /\ Input.pressure t = 0 /\ Input.uv t = None /\
      exists h, inputHandler s = Some h /\
                Input.position t = missPosition (Input.camera h) (Input.mouse h)
  | None => True
  end /\
  frameContacts (snd (updateFrame parseColor threeColor time s)) = [] /\
  paintKept s (update parseColor threeColor time s) /\
  neverHit (update parseColor threeColor time s).
Proof.
  intros Hnever Hmiss.
  destruct (updateFrame_miss parseColor threeColor time s
              (neverHit_untouched s Hnever) Hmiss) as (_ & Htr & Hcontacts & Hpaint).
  split; [|split; [exact Htr | split; [exact Hcontacts | split; [exact Hpaint|]]]].
  - unfold pointerMisses in Hmiss. destruct (inputHandler s) as [h|]; [|exact I].
    rewrite (getBrushTransform_miss _ _ Hmiss). cbn. auto.
  - now apply nh_update.
Qed.

End Sessions.

(** A session on a nail the pointer ray passes by. *)
Definition farMesh : Mesh := mkMesh (fun _ _ _ => []) None (fun v => v).

Definition idleBrush : State :=
  activate
    (Brush.new BrushFacts.frontCamera
       (mkHandModel (Some farMesh) (Some BrushFacts.blankNail))
       (Some (Fluid.mkRenderer (mkVec4 0 0 0 0)))
       (mkDom true true false) 0 (fun _ => 0.5)).

Lemma idleBrush_handler :
  inputHandler idleBrush = Some (Input.attach (Input.new BrushFacts.frontCamera)).
Proof. reflexivity. Qed.

Lemma idleBrush_misses : pointerMisses idleBrush.
Proof. unfold pointerMisses. rewrite idleBrush_handler. reflexivity. Qed.

Lemma pointer_miss_is_inert_witness :
  neverHit ApplicatorFacts.pinkParser FluidFacts.pureRed idleBrush /\
  pointerMisses idleBrush /\
  frameContacts
    (snd (updateFrame ApplicatorFacts.pinkParser FluidFacts.pureRed 16 idleBrush)) = [] /\
  paintKept idleBrush (update ApplicatorFacts.pinkParser FluidFacts.pureRed 16 idleBrush).
Proof.
  assert (Hn : neverHit ApplicatorFacts.pinkParser FluidFacts.pureRed idleBrush).
  { apply nh_activate, nh_new. }
  split; [exact Hn|]. split; [exact idleBrush_misses|].
  destruct (pointer_miss_is_inert ApplicatorFacts.pinkParser FluidFacts.pureRed 16
              idleBrush Hn idleBrush_misses) as (_ & _ & Hc & Hp & _).
  split; [exact Hc | exact Hp].
Defined.

(** The handler of that session, its pointer at the centre of the view. *)
Definition idleHandler : Input.State := Input.attach (Input.new BrushFacts.frontCamera).

(** C6 as stated fails on the pose's position: the miss pose is not on the
    pointer ray (here the ray runs down the z axis from the origin while the
    pose sits at x = 0.005, y = -0.005). *)
Lemma miss_pose_off_view_ray :
  Input.pointerIntersections (Some farMesh) idleHandler = [] /\
  ~ exists d : R,
      Input.position (snd (Input.getBrushTransform (Some farMesh) idleHandler)) =
      addScaledVector
        (Input.rayOrigin (Input.camera idleHandler) (Input.mouse idleHandler))
        (Input.rayDirection (Input.camera idleHandler) (Input.mouse idleHandler)) d.
Proof.
  split; [reflexivity|]. intros [d Hd].
  apply (f_equal vx) in Hd. cbn in Hd. lra.
Qed.

End InertFacts.

(** ** Deactivating, and painting again *)

Module ReactivationFacts.

Import Bristle Brush.

(** *** Handlers and their listeners *)






(** *** deactivate *)






(** *** activate *)


(** *** The renderer and the size of the simulation *)




(** *** A frame with the pointer down over the nail *)



Section WithParsers.

Variable parseColor : string -> Z * Z * Z.
Variable threeColor : string -> Vec3.










End WithParsers.

(** *** A session: painting, switching tools and back *)















End ReactivationFacts.
